(** * HomePage: the account list screen of the authenticator

    A shallow embedding of [src/HomePage.js]: the search filter of
    [handleSearch], the state cells and effects of the [HomePage]
    component, its event handlers, and the order of the declarations in
    the component body. *)

From Stdlib Require Import ZArith NArith Ascii String List Bool Lia.
From stdpp Require Import base decidable list strings.
Import ListNotations.

Local Open Scope Z_scope.

(** ** JavaScript strings

    A string is its sequence of UTF-16 code units, each a number below
    65536.  [trim] strips the code units that the language counts as
    white space or line terminators.  [toLowerCase] is modelled for the
    code units below 256 (Basic Latin and Latin-1) and for the Greek
    letters U+0391 to U+03CE, with the one mapping that depends on the
    place of a letter in its word: a capital sigma at the end of a word
    becomes the final small sigma.  Other code units are outside that
    range and are left as they are; whatever is stated below of
    [toLowerCase] either holds of any lower-casing or is stated for
    strings of code units below 256. *)

Module JsString.

Definition t : Type := list N.

(** A literal of the source, in ASCII. *)
Definition lit (s : string) : t := map N_of_ascii (list_ascii_of_string s).

(** TAB, LF, VT, FF, CR, SPACE, NO-BREAK SPACE, U+1680, U+2000 to U+200A,
    the line and paragraph separators, U+202F, U+205F, U+3000, U+FEFF. *)
Definition isWhiteSpace (c : N) : bool :=
  ((9 <=? c) && (c <=? 13) || (c =? 32) || (c =? 160) || (c =? 5760)
   || (8192 <=? c) && (c <=? 8202) || (c =? 8232) || (c =? 8233)
   || (c =? 8239) || (c =? 8287) || (c =? 12288) || (c =? 65279))%N.

(** The range for which the lower-casing is modelled. *)
Definition modelled (c : N) : bool :=
  ((c <? 256) || (913 <=? c) && (c <=? 974))%N.

(** The small letter of a capital letter, in that range: A-Z, the
    capital letters of Latin-1 (0xC0-0xDE but the multiplication sign
    0xD7) and the Greek capital letters are 32 below their small
    letters. *)
Definition lowerUnit (c : N) : N :=
  if ((65 <=? c) && (c <=? 90)
      || (192 <=? c) && (c <=? 214) || (216 <=? c) && (c <=? 222)
      || (913 <=? c) && (c <=? 929) || (931 <=? c) && (c <=? 939))%N
  then (c + 32)%N else c.

(** The characters that the rule of the final sigma skips: apostrophe,
    full stop, colon, circumflex, grave, diaeresis, soft hyphen, macron,
    acute, middle dot, cedilla. *)
Definition caseIgnorable (c : N) : bool :=
  ((c =? 39) || (c =? 46) || (c =? 58) || (c =? 94) || (c =? 96)
   || (c =? 168) || (c =? 173) || (c =? 175) || (c =? 180)
   || (c =? 183) || (c =? 184))%N.

(** The letters that have a case, in the range. *)
Definition cased (c : N) : bool :=
  ((65 <=? c) && (c <=? 90) || (97 <=? c) && (c <=? 122)
   || (c =? 170) || (c =? 181) || (c =? 186)
   || (192 <=? c) && (c <=? 214) || (216 <=? c) && (c <=? 246)
   || (248 <=? c) && (c <=? 255)
   || (913 <=? c) && (c <=? 929) || (931 <=? c) && (c <=? 974))%N.

Definition capitalSigma : N := 931.
Definition smallSigma : N := 963.
Definition finalSigma : N := 962.

(** A cased letter follows, after characters that are skipped. *)
Fixpoint followedByCased (s : t) : bool :=
  match s with
  | [] => false
  | c :: rest => if caseIgnorable c then followedByCased rest else cased c
  end.

(** The lower-casing of the rest of a string; [afterCased] tells whether
    a cased letter precedes, characters that are skipped apart.  A
    capital sigma that a cased letter precedes and none follows becomes
    the final sigma. *)
Fixpoint lowerFrom (afterCased : bool) (s : t) : t :=
  match s with
  | [] => []
  | c :: rest =>
      (if (c =? capitalSigma)%N
       then if afterCased && negb (followedByCased rest)
            then finalSigma else smallSigma
       else lowerUnit c)
      :: lowerFrom (if caseIgnorable c then afterCased else cased c) rest
  end.

Definition toLowerCase (s : t) : t := lowerFrom false s.

Fixpoint trimStart (s : t) : t :=
  match s with
  | [] => []
  | c :: rest => if isWhiteSpace c then trimStart rest else s
  end.

Definition trimEnd (s : t) : t := rev (trimStart (rev s)).

Definition trim (s : t) : t := trimEnd (trimStart s).

(** [s !== ""] *)
Definition nonEmpty (s : t) : bool :=
  match s with [] => false | _ :: _ => true end.

Fixpoint startsWith (s q : t) {struct q} : bool :=
  match q, s with
  | [], _ => true
  | _ :: _, [] => false
  | a :: q', b :: s' => if decide (a = b) then startsWith s' q' else false
  end.

(** [s.includes(q)]: [q] occurs in [s] at some position. *)
Fixpoint includes (s q : t) : bool :=
  startsWith s q
  || match s with
     | [] => false
     | _ :: rest => includes rest q
     end.

End JsString.

(** ** Accounts *)

Record Account := {
  id : Z;
  accountName : JsString.t;
  issuer : option JsString.t;
  secretKey : JsString.t;
  changedAt : Z
}.

(** ** The search filter of [handleSearch]

    [accounts] is [None] when the store hook delivers [undefined]. *)

Definition matchesQuery (query : JsString.t) (item : Account) : bool :=
  JsString.includes (JsString.toLowerCase (accountName item))
                    (JsString.toLowerCase query).

(** The argument of [setFilteredData] in [handleSearch]. *)
Definition handleSearch_data (accounts : option (list Account))
    (query : JsString.t) : option (list Account) :=
  if JsString.nonEmpty (JsString.trim query)
  then match accounts with
       | None => None
       | Some l => Some (List.filter (matchesQuery query) l)
       end
  else accounts.

(** The [data] property handed to the list view. *)
Definition listData (searchQuery : JsString.t)
    (filteredData accounts : option (list Account)) : option (list Account) :=
  if JsString.nonEmpty (JsString.trim searchQuery) then filteredData else accounts.

(** ** Values delivered by the hooks of one render

    An array is known to the component by its reference and its items;
    the dependency list of an effect compares references ([Object.is]).
    Objects and functions that the component only passes on are their
    references.  [None] stands for [null] and [undefined]. *)

Record JsArray := { ref : nat; items : list Account }.

Record Env := {
  isConnected : option bool;          (* useNetInfo() *)
  userInfo : option nat;              (* useStore() *)
  serverUrl : option JsString.t;
  token : option JsString.t;
  startSync : nat;                    (* useAccountSync() *)
  accounts : option JsArray           (* useAccounts() *)
}.

Definition contents (a : option JsArray) : option (list Account) :=
  match a with Some arr => Some (items arr) | None => None end.

Definition sameArray (a b : option JsArray) : bool :=
  match a, b with
  | None, None => true
  | Some x, Some y => Nat.eqb (ref x) (ref y)
  | _, _ => false
  end.

Definition truthyBool (v : option bool) : bool :=
  match v with Some true => true | _ => false end.

Definition truthyObject (v : option nat) : bool :=
  match v with Some _ => true | None => false end.

Definition truthyString (v : option JsString.t) : bool :=
  match v with Some s => JsString.nonEmpty s | None => false end.

(** [Boolean(isConnected && userInfo && serverUrl)] *)
Definition syncCondition (env : Env) : bool :=
  truthyBool (isConnected env) && truthyObject (userInfo env)
  && truthyString (serverUrl env).

(** ** The state cells of the component ([useState]) *)

Record State := {
  isPlusButton : bool;
  showOptions : bool;
  showEnterAccountModal : bool;
  searchQuery : JsString.t;
  filteredData : option (list Account);
  showScanner : bool;
  showEditAccountModal : bool;
  editingAccount : option Account;
  placeholder : JsString.t;
  refreshing : bool;
  canSync : bool;
  accountsVersion : Z
}.

(** The cells of a fresh component.  [useState(accounts)] is evaluated
    before [accounts] is bound (see [HomePage_body] below); the component
    runs only where that read yields [undefined], which is the initial
    value of [filteredData] here. *)
Definition initialState : State := {|
  isPlusButton := true;
  showOptions := false;
  showEnterAccountModal := false;
  searchQuery := [];
  filteredData := None;
  showScanner := false;
  showEditAccountModal := false;
  editingAccount := None;
  placeholder := [];
  refreshing := false;
  canSync := false;
  accountsVersion := 0
|}.

Definition setIsPlusButton (v : bool) (s : State) : State :=
  {| isPlusButton := v; showOptions := showOptions s;
     showEnterAccountModal := showEnterAccountModal s;
     searchQuery := searchQuery s; filteredData := filteredData s;
     showScanner := showScanner s;
     showEditAccountModal := showEditAccountModal s;
     editingAccount := editingAccount s; placeholder := placeholder s;
     refreshing := refreshing s; canSync := canSync s;
     accountsVersion := accountsVersion s |}.

Definition setShowOptions (v : bool) (s : State) : State :=
  {| isPlusButton := isPlusButton s; showOptions := v;
     showEnterAccountModal := showEnterAccountModal s;
     searchQuery := searchQuery s; filteredData := filteredData s;
     showScanner := showScanner s;
     showEditAccountModal := showEditAccountModal s;
     editingAccount := editingAccount s; placeholder := placeholder s;
     refreshing := refreshing s; canSync := canSync s;
     accountsVersion := accountsVersion s |}.

Definition setShowEnterAccountModal (v : bool) (s : State) : State :=
  {| isPlusButton := isPlusButton s; showOptions := showOptions s;
     showEnterAccountModal := v;
     searchQuery := searchQuery s; filteredData := filteredData s;
     showScanner := showScanner s;
     showEditAccountModal := showEditAccountModal s;
     editingAccount := editingAccount s; placeholder := placeholder s;
     refreshing := refreshing s; canSync := canSync s;
     accountsVersion := accountsVersion s |}.

Definition setSearchQuery (v : JsString.t) (s : State) : State :=
  {| isPlusButton := isPlusButton s; showOptions := showOptions s;
     showEnterAccountModal := showEnterAccountModal s;
     searchQuery := v; filteredData := filteredData s;
     showScanner := showScanner s;
     showEditAccountModal := showEditAccountModal s;
     editingAccount := editingAccount s; placeholder := placeholder s;
     refreshing := refreshing s; canSync := canSync s;
     accountsVersion := accountsVersion s |}.

Definition setFilteredData (v : option (list Account)) (s : State) : State :=
  {| isPlusButton := isPlusButton s; showOptions := showOptions s;
     showEnterAccountModal := showEnterAccountModal s;
     searchQuery := searchQuery s; filteredData := v;
     showScanner := showScanner s;
     showEditAccountModal := showEditAccountModal s;
     editingAccount := editingAccount s; placeholder := placeholder s;
     refreshing := refreshing s; canSync := canSync s;
     accountsVersion := accountsVersion s |}.

Definition setShowScanner (v : bool) (s : State) : State :=
  {| isPlusButton := isPlusButton s; showOptions := showOptions s;
     showEnterAccountModal := showEnterAccountModal s;
     searchQuery := searchQuery s; filteredData := filteredData s;
     showScanner := v;
     showEditAccountModal := showEditAccountModal s;
     editingAccount := editingAccount s; placeholder := placeholder s;
     refreshing := refreshing s; canSync := canSync s;
     accountsVersion := accountsVersion s |}.

Definition setShowEditAccountModal (v : bool) (s : State) : State :=
  {| isPlusButton := isPlusButton s; showOptions := showOptions s;
     showEnterAccountModal := showEnterAccountModal s;
     searchQuery := searchQuery s; filteredData := filteredData s;
     showScanner := showScanner s;
     showEditAccountModal := v;
     editingAccount := editingAccount s; placeholder := placeholder s;
     refreshing := refreshing s; canSync := canSync s;
     accountsVersion := accountsVersion s |}.

Definition setEditingAccount (v : option Account) (s : State) : State :=
  {| isPlusButton := isPlusButton s; showOptions := showOptions s;
     showEnterAccountModal := showEnterAccountModal s;
     searchQuery := searchQuery s; filteredData := filteredData s;
     showScanner := showScanner s;
     showEditAccountModal := showEditAccountModal s;
     editingAccount := v; placeholder := placeholder s;
     refreshing := refreshing s; canSync := canSync s;
     accountsVersion := accountsVersion s |}.

Definition setPlaceholder (v : JsString.t) (s : State) : State :=
  {| isPlusButton := isPlusButton s; showOptions := showOptions s;
     showEnterAccountModal := showEnterAccountModal s;
     searchQuery := searchQuery s; filteredData := filteredData s;
     showScanner := showScanner s;
     showEditAccountModal := showEditAccountModal s;
     editingAccount := editingAccount s; placeholder := v;
     refreshing := refreshing s; canSync := canSync s;
     accountsVersion := accountsVersion s |}.

Definition setRefreshing (v : bool) (s : State) : State :=
  {| isPlusButton := isPlusButton s; showOptions := showOptions s;
     showEnterAccountModal := showEnterAccountModal s;
     searchQuery := searchQuery s; filteredData := filteredData s;
     showScanner := showScanner s;
     showEditAccountModal := showEditAccountModal s;
     editingAccount := editingAccount s; placeholder := placeholder s;
     refreshing := v; canSync := canSync s;
     accountsVersion := accountsVersion s |}.

Definition setCanSync (v : bool) (s : State) : State :=
  {| isPlusButton := isPlusButton s; showOptions := showOptions s;
     showEnterAccountModal := showEnterAccountModal s;
     searchQuery := searchQuery s; filteredData := filteredData s;
     showScanner := showScanner s;
     showEditAccountModal := showEditAccountModal s;
     editingAccount := editingAccount s; placeholder := placeholder s;
     refreshing := refreshing s; canSync := v;
     accountsVersion := accountsVersion s |}.

(** [setAccountsVersion] takes the updater function, as the source calls
    it with [prev => prev + 1].  The counter starts at 0 and grows by one
    per change of the account list: it stays among the integers that a
    number holds exactly, and is an integer here. *)
Definition setAccountsVersion (f : Z -> Z) (s : State) : State :=
  {| isPlusButton := isPlusButton s; showOptions := showOptions s;
     showEnterAccountModal := showEnterAccountModal s;
     searchQuery := searchQuery s; filteredData := filteredData s;
     showScanner := showScanner s;
     showEditAccountModal := showEditAccountModal s;
     editingAccount := editingAccount s; placeholder := placeholder s;
     refreshing := refreshing s; canSync := canSync s;
     accountsVersion := f (accountsVersion s) |}.

(** ** Calls that leave the component

    Every call of a collaborator (the sync hook, the store, timers, the
    interaction manager, notifications, navigation) is recorded in the
    order in which it is made. *)

(** The arguments of one [startSync(userInfo, serverUrl, token)] call,
    with the [startSync] function that is called. *)
Record SyncCall := {
  sc_startSync : nat;
  sc_userInfo : option nat;
  sc_serverUrl : option JsString.t;
  sc_token : option JsString.t
}.

(** The object handed to [setAccount]: the properties of an account, each
    present or not, and [oldAccountName]. *)
Record AccountData := {
  d_id : option Z;
  d_accountName : JsString.t;
  d_issuer : option JsString.t;
  d_secretKey : JsString.t;
  d_changedAt : option Z;
  d_oldAccountName : option JsString.t
}.

(** What a scan, a manual entry or an import hands to [handleAddAccount]:
    one record, or an array of records. *)
Inductive AccountInput :=
| OneAccount (d : AccountData)
| ManyAccounts (l : list AccountData).

Inductive NotifyKind := NotifyError | NotifySuccess.

(** A text shown to the user: a literal of the source, or a key looked up
    by the translation function [t]. *)
Inductive Text :=
| Literal (s : string)
| Translated (key : string).

Inductive Action :=
| A_startSync (c : SyncCall)
| A_setInterval (ms : Z)
| A_clearInterval
| A_runAfterInteractions (c : SyncCall)
| A_notify (kind : NotifyKind) (title : Text) (description : JsString.t)
| A_setAccount (d : AccountData)
| A_updateAccount
| A_insertAccount
| A_insertAccounts (l : list AccountData)
| A_deleteAccount (account_id : Z)
| A_navigate (item : Account)
| A_showImportOptions
| A_swipeableClose.

(** The value a [startSync] call resolves to: [None] (nothing to report)
    or an error value.  The failure of a sync is this value being truthy,
    which is what [onRefresh] tests. *)
Definition SyncResult : Type := option JsString.t.

(** ** A mounted component *)

Definition REFRESH_INTERVAL : Z := 60000.

(** The interval created by the sync effect: its period, the time of its
    next tick, and the values its callback has captured. *)
Record Timer := {
  period : Z;
  due : Z;
  captured : SyncCall
}.

Record Instance := {
  hooks : State;                      (* the state cells, updates applied *)
  rendered : option (Env * State);    (* what the last render has read *)
  depsCanSync : option (option bool * option nat * option JsString.t);
  depsAccounts : option (option JsArray);
  depsTimer : option (nat * bool * option JsString.t);
  timer : option Timer;               (* the live interval, if any *)
  swipeableRef : bool;                (* swipeableRef.current is set *)
  clock : Z;                          (* milliseconds *)
  interactionQueue : list SyncCall;   (* tasks deferred by runAfterInteractions *)
  log : list Action
}.

Definition initialInstance : Instance := {|
  hooks := initialState;
  rendered := None;
  depsCanSync := None;
  depsAccounts := None;
  depsTimer := None;
  timer := None;
  swipeableRef := false;
  clock := 0;
  interactionQueue := [];
  log := []
|}.

Definition withHooks (f : State -> State) (i : Instance) : Instance :=
  {| hooks := f (hooks i); rendered := rendered i;
     depsCanSync := depsCanSync i; depsAccounts := depsAccounts i;
     depsTimer := depsTimer i; timer := timer i;
     swipeableRef := swipeableRef i; clock := clock i;
     interactionQueue := interactionQueue i; log := log i |}.

Definition emit (a : Action) (i : Instance) : Instance :=
  {| hooks := hooks i; rendered := rendered i;
     depsCanSync := depsCanSync i; depsAccounts := depsAccounts i;
     depsTimer := depsTimer i; timer := timer i;
     swipeableRef := swipeableRef i; clock := clock i;
     interactionQueue := interactionQueue i; log := log i ++ [a] |}.

Definition withTimer (t : option Timer) (i : Instance) : Instance :=
  {| hooks := hooks i; rendered := rendered i;
     depsCanSync := depsCanSync i; depsAccounts := depsAccounts i;
     depsTimer := depsTimer i; timer := t;
     swipeableRef := swipeableRef i; clock := clock i;
     interactionQueue := interactionQueue i; log := log i |}.

Definition withClock (now : Z) (i : Instance) : Instance :=
  {| hooks := hooks i; rendered := rendered i;
     depsCanSync := depsCanSync i; depsAccounts := depsAccounts i;
     depsTimer := depsTimer i; timer := timer i;
     swipeableRef := swipeableRef i; clock := now;
     interactionQueue := interactionQueue i; log := log i |}.

Definition withQueue (q : list SyncCall) (i : Instance) : Instance :=
  {| hooks := hooks i; rendered := rendered i;
     depsCanSync := depsCanSync i; depsAccounts := depsAccounts i;
     depsTimer := depsTimer i; timer := timer i;
     swipeableRef := swipeableRef i; clock := clock i;
     interactionQueue := q; log := log i |}.

Definition withSwipeableRef (b : bool) (i : Instance) : Instance :=
  {| hooks := hooks i; rendered := rendered i;
     depsCanSync := depsCanSync i; depsAccounts := depsAccounts i;
     depsTimer := depsTimer i; timer := timer i;
     swipeableRef := b; clock := clock i;
     interactionQueue := interactionQueue i; log := log i |}.

(** The end of a render: the values read and the dependency lists are
    remembered for the next one. *)
Definition commit (env : Env) (st : State) (i : Instance) : Instance :=
  {| hooks := hooks i; rendered := Some (env, st);
     depsCanSync := Some (isConnected env, userInfo env, serverUrl env);
     depsAccounts := Some (accounts env);
     depsTimer := Some (startSync env, canSync st, token env);
     timer := timer i;
     swipeableRef := swipeableRef i; clock := clock i;
     interactionQueue := interactionQueue i; log := log i |}.

(** ** The effects *)

(** An effect runs in the first render, and in a later one when an entry
    of its dependency list is not the same value as in the render before. *)
Definition depsChanged {D : Type} (same : D -> D -> bool)
    (prev : option D) (next : D) : bool :=
  match prev with
  | None => true
  | Some p => negb (same p next)
  end.

Definition sameValues {D : Type} `{EqDecision D} (a b : D) : bool :=
  bool_decide (a = b).

(** [useEffect(() => setCanSync(Boolean(...)), [isConnected, userInfo, serverUrl])] *)
Definition effectCanSync (env : Env) (i : Instance) : Instance :=
  withHooks (setCanSync (syncCondition env)) i.

(** [useEffect(() => { setFilteredData(accounts); setAccountsVersion(prev => prev + 1); }, [accounts])] *)
Definition effectAccounts (env : Env) (i : Instance) : Instance :=
  withHooks (setAccountsVersion (fun prev => prev + 1))
    (withHooks (setFilteredData (contents (accounts env))) i).

Definition syncCallOf (env : Env) : SyncCall :=
  {| sc_startSync := startSync env; sc_userInfo := userInfo env;
     sc_serverUrl := serverUrl env; sc_token := token env |}.

(** The sync effect, with the [canSync] that its render has read: one
    [startSync] call, then the interval. *)
Definition effectTimer (env : Env) (st : State) (i : Instance) : Instance :=
  if canSync st then
    let i1 := emit (A_startSync (syncCallOf env)) i in
    let i2 := emit (A_setInterval REFRESH_INTERVAL) i1 in
    withTimer (Some {| period := REFRESH_INTERVAL;
                       due := clock i + REFRESH_INTERVAL;
                       captured := syncCallOf env |}) i2
  else i.

(** [() => clearInterval(timer)], which exists when the effect has
    created an interval. *)
Definition cleanupTimer (i : Instance) : Instance :=
  match timer i with
  | Some _ => withTimer None (emit A_clearInterval i)
  | None => i
  end.

(** One render and its commit.  The render reads the cells as they are;
    the cleanups of the effects whose dependencies changed run first,
    then those effects in the order of the source.  Updates made by the
    effects reach the cells, to be read by the next render. *)
Definition render (env : Env) (i : Instance) : Instance :=
  let st := hooks i in
  let c1 := depsChanged sameValues (depsCanSync i)
              (isConnected env, userInfo env, serverUrl env) in
  let c2 := depsChanged sameArray (depsAccounts i) (accounts env) in
  let c3 := depsChanged sameValues (depsTimer i)
              (startSync env, canSync st, token env) in
  let i0 := if c3 then cleanupTimer i else i in
  let i1 := if c1 then effectCanSync env i0 else i0 in
  let i2 := if c2 then effectAccounts env i1 else i1 in
  let i3 := if c3 then effectTimer env st i2 else i2 in
  commit env st i3.

(** A render and the render that follows it when the effects have
    written to a cell. *)
Definition settle (env : Env) (i : Instance) : Instance :=
  render env (render env i).

(** ** Timers and deferred tasks *)

(** The number of ticks of an interval up to the time [now]. *)
Definition ticksUntil (t : Timer) (now : Z) : Z :=
  if due t <=? now then (now - due t) / period t + 1 else 0.

(** One tick: [InteractionManager.runAfterInteractions(() => startSync(...))]. *)
Definition tick (c : SyncCall) (i : Instance) : Instance :=
  withQueue (interactionQueue i ++ [c]) (emit (A_runAfterInteractions c) i).

Fixpoint ticks (n : nat) (c : SyncCall) (i : Instance) : Instance :=
  match n with
  | O => i
  | S n' => ticks n' c (tick c i)
  end.

(** Time passes: the live interval ticks as often as it is due. *)
Definition advance (ms : Z) (i : Instance) : Instance :=
  let now := clock i + Z.max 0 ms in
  match timer i with
  | None => withClock now i
  | Some t =>
      let n := ticksUntil t now in
      withClock now
        (withTimer (Some {| period := period t; due := due t + n * period t;
                            captured := captured t |})
           (ticks (Z.to_nat n) (captured t) i))
  end.

(** The interaction manager runs the deferred tasks, oldest first. *)
Definition runInteractions (i : Instance) : Instance :=
  withQueue []
    (fold_left (fun acc c => emit (A_startSync c) acc) (interactionQueue i) i).

(** ** The handlers

    A handler is a closure of the render that created it: it reads the
    hook values and the cells of that render ([env] and [st]), and writes
    to the cells of the component. *)

(** How an awaited [startSync] call settles: it resolves to a value, or
    it rejects.  The sync hook reports a failed sync through the value it
    resolves to. *)
Inductive Settlement :=
| Resolves (value : SyncResult)
| Rejects (reason : JsString.t).

(** Modelled from the spec: [startSync] of the sync hook
    ([useAccountSync] in [useAccountStore], not among the sources).  A
    failed sync is recorded and exposed as the value the call resolves
    to, rather than thrown: the call resolves, to an error value or to
    nothing. *)
Definition startSync_settles (result : SyncResult) : Settlement :=
  Resolves result.

(** How a handler ends: it returns, or an exception leaves it. *)
Inductive Outcome :=
| Returned (i : Instance)
| Thrown (reason : JsString.t) (i : Instance).

Definition instanceOf (o : Outcome) : Instance :=
  match o with
  | Returned i => i
  | Thrown _ i => i
  end.

(** An [async] handler either has run to its end, or waits for a
    [startSync] call to settle. *)
Inductive Pending :=
| Finished (i : Instance)
| AwaitSync (i : Instance) (resume : Settlement -> Instance -> Outcome).

(** The part of [onRefresh] after [await startSync(...)].  There is no
    [try] around the [await]: a rejection leaves the handler there. *)
Definition onRefresh_resume (s : Settlement) (i : Instance) : Outcome :=
  match s with
  | Rejects reason => Thrown reason i
  | Resolves syncError =>
      let i1 :=
        if truthyString syncError then
          emit (A_notify NotifyError (Literal "Sync error")
                         (match syncError with Some e => e | None => [] end)) i
        else
          emit (A_notify NotifySuccess (Literal "Sync success")
                         (JsString.lit "All your accounts are up to date.")) i in
      Returned (withHooks (setRefreshing false) i1)
  end.

Definition onRefresh (env : Env) (st : State) (i : Instance) : Pending :=
  let i1 := withHooks (setRefreshing true) i in
  if canSync st then
    AwaitSync (emit (A_startSync (syncCallOf env)) i1) onRefresh_resume
  else
    Finished (withHooks (setRefreshing false) i1).

(** The handler run to its end, the awaited call settling as [s] with
    nothing else happening meanwhile. *)
Definition complete (s : Settlement) (p : Pending) : Outcome :=
  match p with
  | Finished i => Returned i
  | AwaitSync i resume => resume s i
  end.

Definition closeEnterAccountModal (i : Instance) : Instance :=
  withHooks (setShowEnterAccountModal false) i.

Definition closeEditAccountModal (i : Instance) : Instance :=
  withHooks (setShowEditAccountModal false) i.

Definition handleAddAccount (accountDataInput : AccountInput) (i : Instance) : Instance :=
  match accountDataInput with
  | ManyAccounts l => emit (A_insertAccounts l) i
  | OneAccount d =>
      closeEnterAccountModal (emit A_insertAccount (emit (A_setAccount d) i))
  end.

Definition closeSwipeableMenu (i : Instance) : Instance :=
  if swipeableRef i then emit A_swipeableClose i else i.

Definition handleEditAccount (account : Account) (i : Instance) : Instance :=
  let i1 := closeSwipeableMenu i in
  let i2 := withHooks (setEditingAccount (Some account)) i1 in
  let i3 := withHooks (setPlaceholder (accountName account)) i2 in
  withHooks (setShowEditAccountModal true) i3.

(** [{...editingAccount, accountName: newAccountName,
      oldAccountName: editingAccount.accountName}] *)
Definition renamed (editingAccount : Account) (newAccountName : JsString.t) : AccountData :=
  {| d_id := Some (id editingAccount);
     d_accountName := newAccountName;
     d_issuer := issuer editingAccount;
     d_secretKey := secretKey editingAccount;
     d_changedAt := Some (changedAt editingAccount);
     d_oldAccountName := Some (accountName editingAccount) |}.

Definition onAccountEdit (st : State) (newAccountName : JsString.t) (i : Instance) : Instance :=
  match editingAccount st with
  | Some account =>
      let i1 := emit (A_setAccount (renamed account newAccountName)) i in
      let i2 := emit A_updateAccount i1 in
      let i3 := withHooks (setPlaceholder []) i2 in
      let i4 := withHooks (setEditingAccount None) i3 in
      closeEditAccountModal i4
  | None => i
  end.

Definition onAccountDelete (account : Account) (i : Instance) : Instance :=
  emit (A_deleteAccount (id account)) i.

Definition handleScanPress (i : Instance) : Instance :=
  withHooks (setShowOptions false)
    (withHooks (setIsPlusButton true) (withHooks (setShowScanner true) i)).

Definition handleCloseScanner (i : Instance) : Instance :=
  withHooks (setShowScanner false) i.

Definition handleScanError (error : JsString.t) (i : Instance) : Instance :=
  emit (A_notify NotifyError (Translated "homepage.Error scanning QR code") error)
    (withHooks (setShowScanner false) i).

Definition togglePlusButton (st : State) (i : Instance) : Instance :=
  withHooks (setShowOptions (negb (showOptions st)))
    (withHooks (setIsPlusButton (negb (isPlusButton st))) i).

Definition closeOptions (i : Instance) : Instance :=
  withHooks (setShowScanner false)
    (withHooks (setShowOptions false) (withHooks (setIsPlusButton true) i)).

Definition openEnterAccountModal (i : Instance) : Instance :=
  closeOptions (withHooks (setShowEnterAccountModal true) i).

Definition openImportAccountModal (i : Instance) : Instance :=
  closeOptions (emit A_showImportOptions i).

Definition handleSearch (env : Env) (query : JsString.t) (i : Instance) : Instance :=
  withHooks (setFilteredData (handleSearch_data (contents (accounts env)) query))
    (withHooks (setSearchQuery query) i).

Definition handleItemPress (item : Account) (i : Instance) : Instance :=
  emit (A_navigate item) i.

(** The error callback handed to [useImportManager]. *)
Definition onImportError (message : JsString.t) (i : Instance) : Instance :=
  emit (A_notify NotifyError (Translated "homepage.Import error") message) i.

(** The third callback handed to [useImportManager]. *)
Definition onImportScan (i : Instance) : Instance :=
  withHooks (setShowScanner true) i.

(** What [onComplete] of the countdown circle returns; the handler
    writes to no cell and calls nothing. *)
Record Repeat := {
  shouldRepeat : bool;
  delay : Z;
  newInitialRemainingTime : Z
}.

Definition onComplete (timeRemaining : Z) (i : Instance) : Instance * Repeat :=
  (i, {| shouldRepeat := true; delay := 0;
         newInitialRemainingTime := timeRemaining |}).

(** ** What the list view is given *)

Record ListProps := {
  data : option (list Account);
  extraData : Z;
  refreshControl_refreshing : bool
}.

Definition listProps (env : Env) (st : State) : ListProps :=
  {| data := listData (searchQuery st) (filteredData st) (contents (accounts env));
     extraData := accountsVersion st;
     refreshControl_refreshing := refreshing st |}.

(** The list as the last render has drawn it. *)
Definition view (i : Instance) : option ListProps :=
  match rendered i with
  | Some (env, st) => Some (listProps env st)
  | None => None
  end.

(** ** Events *)

Inductive Event :=
| Render (env : Env)
| Advance (ms : Z)
| InteractionsDone
| SwipeableAttached (b : bool)
| OnRefresh (settles : Settlement)
| HandleSearch (query : JsString.t)
| HandleAddAccount (accountDataInput : AccountInput)
| HandleEditAccount (account : Account)
| OnAccountEdit (newAccountName : JsString.t)
| OnAccountDelete (account : Account)
| CloseEditAccountModal
| HandleScanPress
| HandleCloseScanner
| HandleScanError (error : JsString.t)
| TogglePlusButton
| CloseOptions
| OpenEnterAccountModal
| OpenImportAccountModal
| CloseEnterAccountModal
| HandleItemPress (item : Account)
| OnComplete (timeRemaining : Z)
| OnImportError (message : JsString.t)
| OnImportScan.

(** A handler of the last render is invoked. *)
Definition handle (e : Event) (env : Env) (st : State) (i : Instance) : Instance :=
  match e with
  | OnRefresh r => instanceOf (complete r (onRefresh env st i))
  | HandleSearch q => handleSearch env q i
  | HandleAddAccount d => handleAddAccount d i
  | HandleEditAccount a => handleEditAccount a i
  | OnAccountEdit n => onAccountEdit st n i
  | OnAccountDelete a => onAccountDelete a i
  | CloseEditAccountModal => closeEditAccountModal i
  | HandleScanPress => handleScanPress i
  | HandleCloseScanner => handleCloseScanner i
  | HandleScanError err => handleScanError err i
  | TogglePlusButton => togglePlusButton st i
  | CloseOptions => closeOptions i
  | OpenEnterAccountModal => openEnterAccountModal i
  | OpenImportAccountModal => openImportAccountModal i
  | CloseEnterAccountModal => closeEnterAccountModal i
  | HandleItemPress item => handleItemPress item i
  | OnComplete timeRemaining => fst (onComplete timeRemaining i)
  | OnImportError m => onImportError m i
  | OnImportScan => onImportScan i
  | Render _ | Advance _ | InteractionsDone | SwipeableAttached _ => i
  end.

(** One step of a component.  Before the first render there is no
    handler to invoke. *)
Definition step (e : Event) (i : Instance) : Instance :=
  match e with
  | Render env => render env i
  | Advance ms => advance ms i
  | InteractionsDone => runInteractions i
  | SwipeableAttached b => withSwipeableRef b i
  | _ =>
      match rendered i with
      | Some (env, st) => handle e env st i
      | None => i
      end
  end.

Definition run (events : list Event) (i : Instance) : Instance :=
  fold_left (fun acc e => step e acc) events i.

Definition reachable (i : Instance) : Prop :=
  exists events, i = run events initialInstance.

(** ** The declarations of the component body, in source order

    Each top-level statement of [HomePage], up to its [return], with the
    names it binds ([const]) and the names of the body that it reads when
    it is evaluated.  Names read only inside an arrow function are read
    when that function is called, not here. *)

Record Statement := {
  line : nat;
  binds : list string;
  reads : list string
}.

Local Open Scope string_scope.

Definition HomePage_body : list Statement := [
  {| line := 48; binds := ["isPlusButton"; "setIsPlusButton"]; reads := [] |};
  {| line := 49; binds := ["showOptions"; "setShowOptions"]; reads := [] |};
  {| line := 50; binds := ["showEnterAccountModal"; "setShowEnterAccountModal"]; reads := [] |};
  {| line := 51; binds := ["searchQuery"; "setSearchQuery"]; reads := [] |};
  {| line := 52; binds := ["filteredData"; "setFilteredData"]; reads := ["accounts"] |};
  {| line := 53; binds := ["showScanner"; "setShowScanner"]; reads := [] |};
  {| line := 54; binds := ["showEditAccountModal"; "setShowEditAccountModal"]; reads := [] |};
  {| line := 55; binds := ["editingAccount"; "setEditingAccount"]; reads := [] |};
  {| line := 56; binds := ["placeholder"; "setPlaceholder"]; reads := [] |};
  {| line := 57; binds := ["refreshing"; "setRefreshing"]; reads := [] |};
  {| line := 58; binds := ["isConnected"]; reads := [] |};
  {| line := 59; binds := ["canSync"; "setCanSync"]; reads := [] |};
  {| line := 61; binds := ["accountsVersion"; "setAccountsVersion"]; reads := [] |};
  {| line := 62; binds := ["swipeableRef"]; reads := [] |};
  {| line := 63; binds := ["userInfo"; "serverUrl"; "token"]; reads := [] |};
  {| line := 64; binds := ["startSync"]; reads := [] |};
  {| line := 65; binds := ["accounts"]; reads := [] |};
  {| line := 66; binds := ["setAccount"; "updateAccount"; "insertAccount";
                           "insertAccounts"; "deleteAccount"]; reads := [] |};
  {| line := 67; binds := ["notify"]; reads := [] |};
  {| line := 68; binds := ["t"]; reads := [] |};
  {| line := 69; binds := ["showImportOptions"]; reads := [] |};
  {| line := 81; binds := ["navigation"]; reads := [] |};
  {| line := 84; binds := []; reads := ["isConnected"; "userInfo"; "serverUrl"] |};
  {| line := 89; binds := []; reads := ["accounts"] |};
  {| line := 94; binds := []; reads := ["startSync"; "canSync"; "token"] |};
  {| line := 108; binds := ["onRefresh"]; reads := [] |};
  {| line := 131; binds := ["handleAddAccount"]; reads := [] |};
  {| line := 142; binds := ["handleEditAccount"]; reads := [] |};
  {| line := 149; binds := ["onAccountEdit"]; reads := [] |};
  {| line := 159; binds := ["onAccountDelete"]; reads := [] |};
  {| line := 163; binds := ["closeEditAccountModal"]; reads := [] |};
  {| line := 165; binds := ["handleScanPress"]; reads := [] |};
  {| line := 171; binds := ["handleCloseScanner"]; reads := [] |};
  {| line := 173; binds := ["handleScanError"]; reads := [] |};
  {| line := 183; binds := ["togglePlusButton"]; reads := [] |};
  {| line := 188; binds := ["closeOptions"]; reads := [] |};
  {| line := 194; binds := ["openEnterAccountModal"]; reads := [] |};
  {| line := 199; binds := ["openImportAccountModal"]; reads := [] |};
  {| line := 204; binds := ["closeEnterAccountModal"]; reads := [] |};
  {| line := 207; binds := ["closeSwipeableMenu"]; reads := [] |};
  {| line := 213; binds := ["handleSearch"]; reads := [] |};
  {| line := 221; binds := ["renderRightActions"]; reads := [] |};
  {| line := 270; binds := ["handleItemPress"]; reads := [] |};
  {| line := 279; binds := ["ListItem"]; reads := [] |}
].

(** How the evaluation of the body ends: normally, with the names
    initialised so far, or with the [ReferenceError] of reading a name of
    the body that is not initialised yet. *)
Inductive Completion :=
| Normal (initialised : list string)
| ReferenceError (name : string) (at_line : nat).

Definition declaredNames (body : list Statement) : list string :=
  concat (map binds body).

(** A [const] of the body exists, uninitialised, from the entry of the
    function until its declaration has been evaluated. *)
Definition uninitialised (scope initialised : list string) (x : string) : bool :=
  bool_decide (x ∈ scope) && negb (bool_decide (x ∈ initialised)).

Fixpoint evalBody (scope initialised : list string) (body : list Statement)
  : Completion :=
  match body with
  | [] => Normal initialised
  | s :: rest =>
      match List.find (uninitialised scope initialised) (reads s) with
      | Some x => ReferenceError x (line s)
      | None => evalBody scope (initialised ++ binds s) rest
      end
  end.

Definition evalHomePage : Completion :=
  evalBody (declaredNames HomePage_body) [] HomePage_body.

(** The line of the statement that binds a name. *)
Definition declaredAt (x : string) (body : list Statement) : option nat :=
  line <$> List.find (fun s => bool_decide (x ∈ binds s)) body.

(** The line of the first statement that reads a name. *)
Definition firstReadAt (x : string) (body : list Statement) : option nat :=
  line <$> List.find (fun s => bool_decide (x ∈ reads s)) body.

Local Close Scope string_scope.

(** ** The words of the specification *)

(** [q] occurs in [s]. *)
Definition occursIn (q s : JsString.t) : Prop :=
  exists pre post, s = pre ++ q ++ post.

(** A string of Basic Latin and Latin-1 characters. *)
Definition latin1 (s : JsString.t) : Prop :=
  Forall (fun c => (c < 256)%N) s.

(** [u] is a capital letter of Basic Latin or Latin-1 and [l] is its
    small letter: A-Z and a-z, and the letters from 0xC0 with those from
    0xE0, where 0xD7 and 0xF7 are the signs of multiplication and
    division. *)
Definition smallOf (u l : N) : Prop :=
  ((65 <= u <= 90) \/ (192 <= u <= 214) \/ (216 <= u <= 222))%N
  /\ l = (u + 32)%N.

(** Two characters are the same letter, whatever their case. *)
Definition sameLetter (c d : N) : Prop :=
  c = d \/ smallOf c d \/ smallOf d c.


(** [r] is the subsequence of [l], in the order of [l], of the elements
    that satisfy [P]. *)
Inductive selects {A : Type} (P : A -> Prop) : list A -> list A -> Prop :=
| selects_nil : selects P [] []
| selects_keep x l r : P x -> selects P l r -> selects P (x :: l) (x :: r)
| selects_skip x l r : ~ P x -> selects P l r -> selects P (x :: l) r.

Definition whitespaceOnly (q : JsString.t) : Prop :=
  Forall (fun c => JsString.isWhiteSpace c = true) q.

Definition hasNonWhitespace (q : JsString.t) : Prop :=
  Exists (fun c => JsString.isWhiteSpace c = false) q.

(** Boolean form of [sameLetter], and the code units below 256, for
    checking facts about characters by enumeration. *)
Definition capitalb (c : N) : bool :=
  ((65 <=? c) && (c <=? 90) || (192 <=? c) && (c <=? 214)
   || (216 <=? c) && (c <=? 222))%N.

Definition sameLetterb (c d : N) : bool :=
  (c =? d)%N || capitalb c && (d =? c + 32)%N || capitalb d && (c =? d + 32)%N.

Definition allChars : list N := map N.of_nat (seq 0 256).

(** The [startSync] calls recorded in a log. *)
Definition syncAttempts (l : list Action) : list SyncCall :=
  omap (fun a => match a with A_startSync c => Some c | _ => None end) l.

(** What holds of every component that events have led to: the live
    interval has the period of the source; an interval is live exactly
    when the sync effect last ran with [canSync] true; and the [canSync]
    cell holds the condition of the hook values that the first effect
    last saw. *)
Definition invariant (i : Instance) : Prop :=
  (forall t, timer i = Some t -> period t = REFRESH_INTERVAL)
  /\ (timer i <> None <->
      exists fn tok, depsTimer i = Some (fn, true, tok))
  /\ (forall a b c, depsCanSync i = Some (a, b, c) ->
      canSync (hooks i) = truthyBool a && truthyObject b && truthyString c).

(** ** Sample values *)

Module Sample.

Definition github : Account :=
  {| id := 1; accountName := JsString.lit "GitHub: alice";
     issuer := Some (JsString.lit "GitHub");
     secretKey := JsString.lit "JBSWY3DPEHPK3PXP"; changedAt := 1700000000 |}.

Definition gitlab : Account :=
  {| id := 2; accountName := JsString.lit "gitlab (work)";
     issuer := Some (JsString.lit "GitLab");
     secretKey := JsString.lit "GEZDGNBVGY3TQOJQ"; changedAt := 1700000100 |}.

Definition casdoor : Account :=
  {| id := 3; accountName := JsString.lit "Casdoor";
     issuer := None;
     secretKey := JsString.lit "MFRGGZDFMZTWQ2LK"; changedAt := 1700000200 |}.

Definition three : list Account := [github; casdoor; gitlab].


(** Connected, signed in, server set. *)
Definition online : Env :=
  {| isConnected := Some true; userInfo := Some 1%nat;
     serverUrl := Some (JsString.lit "https://door.example.org");
     token := Some (JsString.lit "token-1"); startSync := 7%nat;
     accounts := Some {| ref := 1; items := three |} |}.

(** Connectivity lost, nothing else changed. *)
Definition offline : Env :=
  {| isConnected := Some false; userInfo := userInfo online;
     serverUrl := serverUrl online; token := token online;
     startSync := startSync online; accounts := accounts online |}.

(** Signed out: the user and the token are gone in the same render. *)
Definition signedOut : Env :=
  {| isConnected := Some true; userInfo := None;
     serverUrl := serverUrl online; token := None;
     startSync := startSync online; accounts := accounts online |}.

(** The store has delivered a new array, with one account less. *)
Definition onlineTwo : Env :=
  {| isConnected := isConnected online; userInfo := userInfo online;
     serverUrl := serverUrl online; token := token online;
     startSync := startSync online;
     accounts := Some {| ref := 2; items := [github; gitlab] |} |}.

End Sample.

(** ** More of the screen *)

(** [icon={isPlusButton ? "plus" : "close"}] of the floating button. *)
Definition fabIcon (st : State) : string :=
  if isPlusButton st then "plus"%string else "close"%string.

(** What the template of the icon address interpolates:
    [item.issuer?.toLowerCase()], which is [undefined] for an account
    without issuer and is then written as the word. *)
Definition issuerKey (item : Account) : JsString.t :=
  match issuer item with
  | Some s => JsString.toLowerCase s
  | None => JsString.lit "undefined"
  end.

(** [`https://cdn.casbin.org/img/social_${item.issuer?.toLowerCase()}.png`] *)
Definition avatarUri (item : Account) : JsString.t :=
  JsString.lit "https://cdn.casbin.org/img/social_"
  ++ issuerKey item ++ JsString.lit ".png".

(** ** Reading a log *)

Definition isSetInterval (a : Action) : bool :=
  match a with A_setInterval _ => true | _ => false end.

Definition isClearInterval (a : Action) : bool :=
  match a with A_clearInterval => true | _ => false end.

Definition intervalsCreated (l : list Action) : nat :=
  length (List.filter isSetInterval l).

Definition intervalsCleared (l : list Action) : nat :=
  length (List.filter isClearInterval l).

Definition liveIntervals (i : Instance) : nat :=
  match timer i with Some _ => 1%nat | None => 0%nat end.

(** The calls that write to the account store. *)
Definition isStoreWrite (a : Action) : bool :=
  match a with
  | A_setAccount _ | A_updateAccount | A_insertAccount
  | A_insertAccounts _ | A_deleteAccount _ => true
  | _ => false
  end.

Definition storeWrites (l : list Action) : list Action :=
  List.filter isStoreWrite l.

(** The events whose code calls [startSync]: a render (the sync effect),
    the interaction manager running a deferred task, a pull to refresh. *)
Definition startsSync (e : Event) : bool :=
  match e with
  | Render _ | InteractionsDone | OnRefresh _ => true
  | _ => false
  end.

(** The events whose code calls a write operation of the store. *)
Definition writesStore (e : Event) : bool :=
  match e with
  | HandleAddAccount _ | OnAccountEdit _ | OnAccountDelete _ => true
  | _ => false
  end.

(** The events that create, clear or advance the interval. *)
Definition touchesInterval (e : Event) : bool :=
  match e with
  | Render _ | Advance _ => true
  | _ => false
  end.

(** The cells of the floating button agree, in the component and in
    what its last render has read. *)
Definition buttonInvariant (i : Instance) : Prop :=
  showOptions (hooks i) = negb (isPlusButton (hooks i))
  /\ (forall env st, rendered i = Some (env, st) ->
      showOptions st = negb (isPlusButton st)).

(** The cells of the edit form agree. *)
Definition editInvariant (i : Instance) : Prop :=
  match editingAccount (hooks i) with
  | Some a => placeholder (hooks i) = accountName a
  | None => placeholder (hooks i) = [] /\ showEditAccountModal (hooks i) = false
  end.

(** The dependency lists remembered are those of the last render. *)
Definition renderedInvariant (i : Instance) : Prop :=
  forall env st, rendered i = Some (env, st) ->
  depsCanSync i = Some (isConnected env, userInfo env, serverUrl env)
  /\ depsTimer i = Some (startSync env, canSync st, token env).

(** * Properties *)

(** ** Strings *)

Section StringFacts.

Import JsString.

Lemma trimStart_nil_iff (s : JsString.t) :
  trimStart s = [] <-> whitespaceOnly s.
Proof.
  unfold whitespaceOnly. induction s as [|c s IH]; simpl.
  - split; [constructor | reflexivity].
  - destruct (isWhiteSpace c) eqn:Hc.
    + rewrite IH. split.
      * intros H. constructor; assumption.
      * intros H. inversion H; assumption.
    + split; [discriminate|].
      intros H. inversion H; congruence.
Qed.

Lemma whitespaceOnly_rev (s : JsString.t) :
  whitespaceOnly (rev s) <-> whitespaceOnly s.
Proof.
  unfold whitespaceOnly. rewrite !List.Forall_forall.
  split; intros H x Hx; apply H.
  - apply in_rev in Hx. exact Hx.
  - apply in_rev. exact Hx.
Qed.

Lemma trimStart_suffix (s : JsString.t) :
  exists pre, s = pre ++ trimStart s /\ whitespaceOnly pre.
Proof.
  induction s as [|c s [pre [Heq Hpre]]]; simpl.
  - exists []. split; [reflexivity | constructor].
  - destruct (isWhiteSpace c) eqn:Hc.
    + exists (c :: pre). split.
      * simpl. f_equal. exact Heq.
      * constructor; assumption.
    + exists []. split; [reflexivity | constructor].
Qed.

Lemma whitespaceOnly_app (a b : JsString.t) :
  whitespaceOnly (a ++ b) <-> whitespaceOnly a /\ whitespaceOnly b.
Proof. unfold whitespaceOnly. apply List.Forall_app. Qed.

Lemma whitespaceOnly_trimStart (s : JsString.t) :
  whitespaceOnly (trimStart s) <-> whitespaceOnly s.
Proof.
  destruct (trimStart_suffix s) as [pre [Heq Hpre]].
  split; intros H.
  - rewrite Heq. apply whitespaceOnly_app. split; assumption.
  - rewrite Heq in H. apply whitespaceOnly_app in H. tauto.
Qed.

Lemma trim_nil_iff (q : JsString.t) :
  trim q = [] <-> whitespaceOnly q.
Proof.
  unfold trim, trimEnd.
  rewrite <- whitespaceOnly_trimStart, <- whitespaceOnly_rev,
          <- trimStart_nil_iff.
  split; intros H.
  - apply (f_equal (@rev N)) in H. rewrite rev_involutive in H. exact H.
  - rewrite H. reflexivity.
Qed.

Lemma nonEmpty_false_iff (s : JsString.t) : nonEmpty s = false <-> s = [].
Proof. destruct s; simpl; split; congruence. Qed.

Lemma nonEmpty_trim_false (q : JsString.t) :
  nonEmpty (trim q) = false <-> whitespaceOnly q.
Proof. rewrite nonEmpty_false_iff. apply trim_nil_iff. Qed.

Lemma hasNonWhitespace_iff (q : JsString.t) :
  hasNonWhitespace q <-> ~ whitespaceOnly q.
Proof.
  unfold hasNonWhitespace, whitespaceOnly.
  induction q as [|c q IH].
  - split.
    + intros H. inversion H.
    + intros H. exfalso. apply H. constructor.
  - split.
    + intros H Hall. inversion Hall; subst.
      inversion H; subst; [congruence|]. apply IH in H1. contradiction.
    + intros H. destruct (isWhiteSpace c) eqn:Hc.
      * apply List.Exists_cons_tl. apply IH. intros Hq. apply H.
        constructor; assumption.
      * apply List.Exists_cons_hd. exact Hc.
Qed.

Lemma nonEmpty_trim_true (q : JsString.t) :
  nonEmpty (trim q) = true <-> hasNonWhitespace q.
Proof.
  rewrite hasNonWhitespace_iff, <- nonEmpty_trim_false.
  destruct (nonEmpty (trim q)); split; congruence.
Qed.

Lemma startsWith_spec (s q : JsString.t) :
  startsWith s q = true <-> exists post, s = q ++ post.
Proof.
  revert s. induction q as [|a q IH]; intros s; simpl.
  - split; [intros _; exists s; reflexivity | reflexivity].
  - destruct s as [|b s].
    + split; [discriminate | intros [post H]; discriminate].
    + destruct (decide (a = b)) as [->|Hne].
      * rewrite IH. split; intros [post H]; exists post.
        -- rewrite H. reflexivity.
        -- injection H as H. exact H.
      * split; [discriminate|]. intros [post H]. injection H as H1 H2.
        congruence.
Qed.

Lemma includes_spec (s q : JsString.t) :
  includes s q = true <-> exists pre post, s = pre ++ q ++ post.
Proof.
  induction s as [|b s IH].
  - simpl. rewrite orb_false_r, startsWith_spec. split.
    + intros [post H]. exists [], post. exact H.
    + intros [pre [post H]]. destruct pre; [|discriminate].
      exists post. exact H.
  - cbn [includes]. rewrite orb_true_iff, startsWith_spec, IH. split.
    + intros [[post H] | [pre [post H]]].
      * exists [], post. exact H.
      * exists (b :: pre), post. rewrite H. reflexivity.
    + intros [pre [post H]]. destruct pre as [|c pre].
      * left. exists post. exact H.
      * right. injection H as _ H. exists pre, post. exact H.
Qed.

Lemma sameLetterb_spec (c d : N) :
  sameLetterb c d = true <-> sameLetter c d.
Proof.
  unfold sameLetterb, sameLetter, smallOf, capitalb.
  repeat (rewrite orb_true_iff || rewrite andb_true_iff).
  rewrite !N.eqb_eq, !N.leb_le.
  tauto.
Qed.

Lemma allChars_complete (c : N) : (c < 256)%N -> In c allChars.
Proof.
  intros Hc. unfold allChars. rewrite <- (N2Nat.id c).
  apply in_map. apply in_seq. lia.
Qed.

Lemma sameLetterb_lowerUnit (c d : N) :
  (c < 256)%N -> (d < 256)%N ->
  sameLetterb c d = (lowerUnit c =? lowerUnit d)%N.
Proof.
  assert (H : forallb (fun c => forallb (fun d =>
                Bool.eqb (sameLetterb c d)
                         (lowerUnit c =? lowerUnit d)%N)
              allChars) allChars = true) by (vm_compute; reflexivity).
  intros Hc Hd.
  rewrite forallb_forall in H. specialize (H c (allChars_complete c Hc)).
  rewrite forallb_forall in H. specialize (H d (allChars_complete d Hd)).
  apply Bool.eqb_prop in H. exact H.
Qed.

(** Below 256, two characters are the same letter exactly when
    [toLowerCase] gives them the same code unit. *)
Lemma sameLetter_lowerUnit (c d : N) :
  (c < 256)%N -> (d < 256)%N ->
  sameLetter c d <-> lowerUnit c = lowerUnit d.
Proof.
  intros Hc Hd.
  rewrite <- sameLetterb_spec, (sameLetterb_lowerUnit c d Hc Hd).
  apply N.eqb_eq.
Qed.

Lemma latin1_app (a b : JsString.t) :
  latin1 (a ++ b) <-> latin1 a /\ latin1 b.
Proof. unfold latin1. apply List.Forall_app. Qed.

(** On a string of code units below 256, [toLowerCase] maps each code
    unit by itself. *)
Lemma lowerFrom_latin1 (s : JsString.t) (afterCased : bool) :
  latin1 s -> lowerFrom afterCased s = map lowerUnit s.
Proof.
  intros Hs. revert afterCased.
  induction Hs as [|c s Hc _ IH]; intros afterCased; simpl.
  - reflexivity.
  - rewrite IH. replace (c =? capitalSigma)%N with false; [reflexivity|].
    symmetry. apply N.eqb_neq. unfold capitalSigma. lia.
Qed.

Lemma toLowerCase_latin1 (s : JsString.t) :
  latin1 s -> toLowerCase s = map lowerUnit s.
Proof. apply lowerFrom_latin1. Qed.

Lemma sameLetters_lowerUnits (a b : JsString.t) :
  latin1 a -> latin1 b ->
  Forall2 sameLetter a b <-> map lowerUnit a = map lowerUnit b.
Proof.
  intros Ha. revert b. induction Ha as [|c a Hc _ IH]; intros [|d b] Hb; simpl.
  - split; [reflexivity | constructor].
  - split; [intros H; inversion H | discriminate].
  - split; [intros H; inversion H | discriminate].
  - inversion Hb as [|? ? Hd Hb']; subst. split.
    + intros H. inversion H; subst. f_equal.
      * apply sameLetter_lowerUnit; assumption.
      * apply IH; assumption.
    + intros H. injection H as H1 H2. constructor.
      * apply sameLetter_lowerUnit; assumption.
      * apply IH; assumption.
Qed.

Lemma sameLetters_toLowerCase (a b : JsString.t) :
  latin1 a -> latin1 b ->
  Forall2 sameLetter a b <-> toLowerCase a = toLowerCase b.
Proof.
  intros Ha Hb. rewrite (toLowerCase_latin1 a Ha), (toLowerCase_latin1 b Hb).
  apply sameLetters_lowerUnits; assumption.
Qed.

Lemma sameLetters_latin1 (a b : JsString.t) :
  Forall2 sameLetter a b -> latin1 a -> latin1 b.
Proof.
  unfold latin1. intros H. induction H as [|c d a b Hcd _ IH].
  - intros _. constructor.
  - intros Ha. inversion Ha; subst. constructor; [|apply IH; assumption].
    unfold sameLetter, smallOf in Hcd. lia.
Qed.

(** The test of [handleSearch], for any lower-casing: the lower-cased
    query occurs in the lower-cased name. *)
Lemma matchesQuery_occurs (query : JsString.t) (item : Account) :
  matchesQuery query item = true
  <-> occursIn (toLowerCase query) (toLowerCase (accountName item)).
Proof. unfold matchesQuery, occursIn. apply includes_spec. Qed.


End StringFacts.



Lemma selects_unique {A : Type} (P : A -> Prop) (l r1 r2 : list A) :
  selects P l r1 -> selects P l r2 -> r1 = r2.
Proof.
  intros H1. revert r2. induction H1; intros r2 H2; inversion H2; subst;
    try reflexivity; try contradiction.
  - f_equal. apply IHselects. assumption.
  - apply IHselects. assumption.
Qed.

(** ** The search filter *)

(** C2. An empty query, or one of white space only, gives back the
    account list it was given, unchanged and in its order: this is what
    [handleSearch] stores and what the list view is handed. *)
Theorem search_blank_query_identity
    (accounts : option (list Account)) (query : JsString.t) :
  whitespaceOnly query ->
  handleSearch_data accounts query = accounts
  /\ listData query (handleSearch_data accounts query) accounts = accounts.
Proof.
  intros Hq. apply nonEmpty_trim_false in Hq.
  unfold handleSearch_data, listData. rewrite Hq. split; reflexivity.
Qed.

Lemma search_blank_query_identity_witness :
  whitespaceOnly (JsString.lit "  ")
  /\ handleSearch_data (Some Sample.three) (JsString.lit "  ")
     = Some Sample.three
  /\ handleSearch_data (Some Sample.three) [] = Some Sample.three.
Proof.
  assert (H : whitespaceOnly (JsString.lit "  "))
    by (repeat constructor).
  split; [exact H|]. split.
  - exact (proj1 (search_blank_query_identity (Some Sample.three) _ H)).
  - refine (proj1 (search_blank_query_identity (Some Sample.three) [] _)).
    constructor.
Defined.




Example search_git :
  handleSearch_data (Some Sample.three) (JsString.lit "gIt")
  = Some [Sample.github; Sample.gitlab].
Proof. reflexivity. Qed.

Example search_padded_query :
  handleSearch_data (Some Sample.three) (JsString.lit " git") = Some [].
Proof. reflexivity. Qed.

(** ** Renaming *)

(** C4. A rename hands the store the edited account with a new
    [accountName] (and the old name beside it); [id], [secretKey],
    [issuer] and [changedAt] are those of the account. *)
Theorem rename_changes_only_name
    (st : State) (account : Account) (newAccountName : JsString.t)
    (i : Instance) :
  editingAccount st = Some account ->
  exists d,
    log (onAccountEdit st newAccountName i)
    = log i ++ [A_setAccount d; A_updateAccount]
    /\ d_accountName d = newAccountName
    /\ d_id d = Some (id account)
    /\ d_secretKey d = secretKey account
    /\ d_issuer d = issuer account
    /\ d_changedAt d = Some (changedAt account)
    /\ d_oldAccountName d = Some (accountName account).
Proof.
  intros He. exists (renamed account newAccountName).
  unfold onAccountEdit. rewrite He. simpl.
  rewrite <- app_assoc. repeat split; reflexivity.
Qed.

Lemma rename_changes_only_name_witness :
  exists d,
    log (onAccountEdit (setEditingAccount (Some Sample.github) initialState)
                       (JsString.lit "work") initialInstance)
    = [A_setAccount d; A_updateAccount]
    /\ d_accountName d = JsString.lit "work"
    /\ d_id d = Some 1
    /\ d_secretKey d = JsString.lit "JBSWY3DPEHPK3PXP".
Proof.
  destruct (rename_changes_only_name
              (setEditingAccount (Some Sample.github) initialState)
              Sample.github (JsString.lit "work") initialInstance eq_refl)
    as [d [Hlog [Hn [Hid [Hk _]]]]].
  exists d. repeat split; assumption.
Defined.

(** ** The declarations of the body *)

(** C10. The initial value of [filteredData] (line 52) reads
    [accounts], which the body binds only at line 65: evaluating the body
    from its first statement, that read finds the binding uninitialised. *)
Theorem filteredData_reads_accounts_before_declaration :
  (exists s, List.find (fun s => bool_decide ("filteredData"%string ∈ binds s))
                       HomePage_body = Some s
             /\ line s = 52%nat /\ reads s = ["accounts"%string])
  /\ declaredAt "accounts" HomePage_body = Some 65%nat
  /\ firstReadAt "accounts" HomePage_body = Some 52%nat
  /\ evalHomePage = ReferenceError "accounts" 52.
Proof.
  split.
  - eexists. split; [reflexivity|]. split; reflexivity.
  - repeat split; reflexivity.
Qed.

(** ** Pull to refresh *)

(** C8. Whatever value the [startSync] call resolves to, [onRefresh]
    returns (no exception leaves it) with the refreshing indicator
    cleared.  A skipped sync calls nothing; a failed one (a truthy error
    value) is reported by an error notification that carries that value;
    any other one by the success notification. *)
Theorem refresh_reports_error_and_clears_indicator
    (env : Env) (st : State) (i : Instance) (syncError : SyncResult) :
  exists j,
    complete (startSync_settles syncError) (onRefresh env st i) = Returned j
    /\ refreshing (hooks j) = false
    /\ (canSync st = false -> log j = log i)
    /\ (canSync st = true ->
        forall e, syncError = Some e -> e <> [] ->
        log j = log i ++ [A_startSync (syncCallOf env);
                          A_notify NotifyError (Literal "Sync error") e])
    /\ (canSync st = true -> truthyString syncError = false ->
        log j = log i ++ [A_startSync (syncCallOf env);
                          A_notify NotifySuccess (Literal "Sync success")
                            (JsString.lit "All your accounts are up to date.")]).
Proof.
  unfold onRefresh. destruct (canSync st) eqn:Hc; simpl.
  - eexists. split; [reflexivity|]. split; [reflexivity|].
    split; [discriminate|]. split.
    + intros _ e -> He. destruct e as [|c e]; [contradiction|].
      simpl. rewrite <- app_assoc. reflexivity.
    + intros _ Hr. rewrite Hr. simpl. rewrite <- app_assoc. reflexivity.
  - eexists. split; [reflexivity|]. split; [reflexivity|].
    split; [reflexivity|]. split; discriminate.
Qed.

Lemma refresh_reports_error_and_clears_indicator_witness :
  exists j,
    complete (startSync_settles (Some (JsString.lit "Network request failed")))
             (onRefresh Sample.online (setCanSync true initialState)
                        initialInstance) = Returned j
    /\ refreshing (hooks j) = false
    /\ log j = [A_startSync (syncCallOf Sample.online);
                A_notify NotifyError (Literal "Sync error")
                         (JsString.lit "Network request failed")].
Proof.
  destruct (refresh_reports_error_and_clears_indicator
              Sample.online (setCanSync true initialState) initialInstance
              (Some (JsString.lit "Network request failed")))
    as [j [Hj [Hr [_ [Herr _]]]]].
  exists j. split; [exact Hj|]. split; [exact Hr|].
  apply (Herr eq_refl _ eq_refl). discriminate.
Defined.

Example refresh_rejected_leaves_indicator_set :
  complete (Rejects (JsString.lit "boom"))
           (onRefresh Sample.online (setCanSync true initialState)
                      initialInstance)
  = Thrown (JsString.lit "boom")
      (emit (A_startSync (syncCallOf Sample.online))
            (withHooks (setRefreshing true) initialInstance)).
Proof. reflexivity. Qed.

(** ** Frames: what the steps leave alone *)

Lemma ticks_frame (n : nat) (c : SyncCall) (i : Instance) :
  hooks (ticks n c i) = hooks i
  /\ rendered (ticks n c i) = rendered i
  /\ depsCanSync (ticks n c i) = depsCanSync i
  /\ depsAccounts (ticks n c i) = depsAccounts i
  /\ depsTimer (ticks n c i) = depsTimer i
  /\ timer (ticks n c i) = timer i
  /\ clock (ticks n c i) = clock i.
Proof.
  revert i. induction n as [|n IH]; intros i; simpl.
  - repeat split; reflexivity.
  - destruct (IH (tick c i)) as (H1 & H2 & H3 & H4 & H5 & H6 & H7).
    rewrite H1, H2, H3, H4, H5, H6, H7. repeat split; reflexivity.
Qed.

Lemma ticks_queue (n : nat) (c : SyncCall) (i : Instance) :
  interactionQueue (ticks n c i) = interactionQueue i ++ repeat c n.
Proof.
  revert i. induction n as [|n IH]; intros i; simpl.
  - rewrite app_nil_r. reflexivity.
  - rewrite IH. simpl. rewrite <- app_assoc. reflexivity.
Qed.

Lemma ticks_log (n : nat) (c : SyncCall) (i : Instance) :
  log (ticks n c i) = log i ++ repeat (A_runAfterInteractions c) n.
Proof.
  revert i. induction n as [|n IH]; intros i; simpl.
  - rewrite app_nil_r. reflexivity.
  - rewrite IH. simpl. rewrite <- app_assoc. reflexivity.
Qed.

Lemma emit_all_frame (q : list SyncCall) (i : Instance) :
  let j := fold_left (fun acc c => emit (A_startSync c) acc) q i in
  hooks j = hooks i
  /\ rendered j = rendered i
  /\ depsCanSync j = depsCanSync i
  /\ depsAccounts j = depsAccounts i
  /\ depsTimer j = depsTimer i
  /\ timer j = timer i
  /\ clock j = clock i
  /\ log j = log i ++ map A_startSync q.
Proof.
  revert i. induction q as [|c q IH]; intros i; simpl.
  - rewrite app_nil_r. repeat split; reflexivity.
  - destruct (IH (emit (A_startSync c) i)) as (H1 & H2 & H3 & H4 & H5 & H6 & H7 & H8).
    simpl in *. rewrite H1, H2, H3, H4, H5, H6, H7, H8.
    rewrite <- app_assoc. repeat split; reflexivity.
Qed.

(** A handler writes to cells and calls collaborators: it leaves the
    dependency lists, the interval, the clock and the deferred tasks
    alone, and among the cells [canSync] and [accountsVersion];
    [filteredData] is written by [handleSearch] only. *)
Lemma handle_frame (e : Event) (env : Env) (st : State) (i : Instance) :
  let j := handle e env st i in
  rendered j = rendered i
  /\ depsCanSync j = depsCanSync i
  /\ depsAccounts j = depsAccounts i
  /\ depsTimer j = depsTimer i
  /\ timer j = timer i
  /\ clock j = clock i
  /\ interactionQueue j = interactionQueue i
  /\ canSync (hooks j) = canSync (hooks i)
  /\ accountsVersion (hooks j) = accountsVersion (hooks i)
  /\ ((forall q, e <> HandleSearch q) ->
      filteredData (hooks j) = filteredData (hooks i)).
Proof.
  destruct e; simpl;
    try (unfold onRefresh, complete, onRefresh_resume;
         destruct (canSync st); simpl;
         [destruct settles as [r|]; simpl;
          [destruct (truthyString r); simpl|] |]);
    unfold handleAddAccount,
      handleEditAccount, closeSwipeableMenu, onAccountEdit, onAccountDelete,
      closeEditAccountModal, handleScanPress, handleCloseScanner,
      handleScanError, togglePlusButton, closeOptions, openEnterAccountModal,
      openImportAccountModal, closeEnterAccountModal, handleItemPress,
      onImportError, onImportScan, handleSearch;
    repeat match goal with
           | |- context [match ?x with _ => _ end] => destruct x; simpl
           end;
    repeat split; try reflexivity; try (intros H; exfalso; eapply H; reflexivity).
Qed.

(** ** One render *)

Ltac render_cases i :=
  unfold render, effectTimer, cleanupTimer, effectAccounts, effectCanSync;
  cbv zeta;
  destruct (depsChanged sameValues (depsCanSync i) _);
  destruct (depsChanged sameArray (depsAccounts i) _);
  destruct (depsChanged sameValues (depsTimer i) _);
  simpl;
  (let Ht := fresh "Htimer" in
   let Hc := fresh "Hcs" in
   destruct (timer i) eqn:Ht; simpl; rewrite ?Ht;
   destruct (canSync (hooks i)) eqn:Hc; simpl; rewrite ?Hc, ?Ht);
  rewrite <- ?app_assoc, ?app_nil_r; simpl.

Lemma render_rendered (env : Env) (i : Instance) :
  rendered (render env i) = Some (env, hooks i).
Proof. reflexivity. Qed.

Lemma render_deps (env : Env) (i : Instance) :
  depsCanSync (render env i) = Some (isConnected env, userInfo env, serverUrl env)
  /\ depsAccounts (render env i) = Some (accounts env)
  /\ depsTimer (render env i) = Some (startSync env, canSync (hooks i), token env).
Proof. repeat split; reflexivity. Qed.

Lemma render_canSync (env : Env) (i : Instance) :
  canSync (hooks (render env i))
  = if depsChanged sameValues (depsCanSync i)
         (isConnected env, userInfo env, serverUrl env)
    then syncCondition env else canSync (hooks i).
Proof. render_cases i; reflexivity. Qed.

Lemma render_filteredData (env : Env) (i : Instance) :
  filteredData (hooks (render env i))
  = if depsChanged sameArray (depsAccounts i) (accounts env)
    then contents (accounts env) else filteredData (hooks i).
Proof. render_cases i; reflexivity. Qed.

Lemma render_accountsVersion (env : Env) (i : Instance) :
  accountsVersion (hooks (render env i))
  = if depsChanged sameArray (depsAccounts i) (accounts env)
    then accountsVersion (hooks i) + 1 else accountsVersion (hooks i).
Proof. render_cases i; reflexivity. Qed.

Lemma render_searchQuery (env : Env) (i : Instance) :
  searchQuery (hooks (render env i)) = searchQuery (hooks i).
Proof. render_cases i; reflexivity. Qed.

Lemma render_clock_queue (env : Env) (i : Instance) :
  clock (render env i) = clock i
  /\ interactionQueue (render env i) = interactionQueue i.
Proof. render_cases i; split; reflexivity. Qed.

(** The interval after a render: when the dependencies of the sync
    effect changed, the old one is gone and a new one exists if the
    render has read [canSync] as true. *)
Lemma render_timer (env : Env) (i : Instance) :
  timer (render env i)
  = if depsChanged sameValues (depsTimer i)
         (startSync env, canSync (hooks i), token env)
    then if canSync (hooks i)
         then Some {| period := REFRESH_INTERVAL;
                      due := clock i + REFRESH_INTERVAL;
                      captured := syncCallOf env |}
         else None
    else timer i.
Proof. render_cases i; reflexivity. Qed.

(** The calls of a render. *)
Lemma render_log (env : Env) (i : Instance) :
  log (render env i)
  = log i ++
    if depsChanged sameValues (depsTimer i)
         (startSync env, canSync (hooks i), token env)
    then (match timer i with Some _ => [A_clearInterval] | None => [] end)
         ++ (if canSync (hooks i)
             then [A_startSync (syncCallOf env); A_setInterval REFRESH_INTERVAL]
             else [])
    else [].
Proof. render_cases i; reflexivity. Qed.

Lemma sameValues_refl {D : Type} `{EqDecision D} (a : D) : sameValues a a = true.
Proof. unfold sameValues. apply bool_decide_eq_true. reflexivity. Qed.

Lemma sameValues_true {D : Type} `{EqDecision D} (a b : D) :
  sameValues a b = true <-> a = b.
Proof. unfold sameValues. apply bool_decide_eq_true. Qed.

Lemma depsChanged_false {D : Type} `{EqDecision D} (prev : option D) (next : D) :
  depsChanged sameValues prev next = false <-> prev = Some next.
Proof.
  destruct prev as [p|]; simpl.
  - rewrite negb_false_iff. unfold sameValues. rewrite bool_decide_eq_true.
    split; congruence.
  - split; discriminate.
Qed.

Lemma sameArray_refl (a : option JsArray) : sameArray a a = true.
Proof. destruct a; simpl; [apply Nat.eqb_refl | reflexivity]. Qed.

(** Arrays that are not updated in place: where the items differ, the
    references differ, and the dependency list sees the change. *)
Lemma items_changed_reference_changed (a b : JsArray) :
  (ref a = ref b -> items a = items b) -> items a <> items b ->
  depsChanged sameArray (Some (Some a)) (Some b) = true.
Proof.
  intros Hsame Hne. simpl. apply negb_true_iff, Nat.eqb_neq.
  intros Heq. apply Hne, Hsame, Heq.
Qed.

(** ** The invariant *)

Lemma invariant_initial : invariant initialInstance.
Proof.
  unfold invariant. simpl. repeat split.
  - discriminate.
  - intros H. contradiction.
  - intros [fn [tok H]]. discriminate.
  - discriminate.
Qed.

Lemma render_invariant (env : Env) (i : Instance) :
  invariant i -> invariant (render env i).
Proof.
  intros (Hp & Ht & Hc). unfold invariant.
  rewrite render_timer, render_canSync.
  destruct (render_deps env i) as (-> & _ & ->).
  repeat split.
  - destruct (depsChanged sameValues (depsTimer i) _).
    + destruct (canSync (hooks i)); intros t Heq; [|discriminate].
      injection Heq as <-. reflexivity.
    + apply Hp.
  - intros Hn. exists (startSync env), (token env).
    destruct (depsChanged sameValues (depsTimer i) _) eqn:Hd.
    + destruct (canSync (hooks i)); [reflexivity | contradiction].
    + apply Ht in Hn as [fn [tok Hdeps]].
      apply depsChanged_false in Hd. congruence.
  - intros [fn [tok Heq]]. injection Heq as _ Hcs _.
    destruct (depsChanged sameValues (depsTimer i) _) eqn:Hd.
    + rewrite Hcs. discriminate.
    + apply Ht. apply depsChanged_false in Hd.
      exists (startSync env), (token env). congruence.
  - intros a b c Heq. injection Heq as <- <- <-.
    destruct (depsChanged sameValues (depsCanSync i) _) eqn:Hd.
    + reflexivity.
    + apply depsChanged_false in Hd. apply Hc. exact Hd.
Qed.

Lemma advance_invariant (ms : Z) (i : Instance) :
  invariant i -> invariant (advance ms i).
Proof.
  intros (Hp & Ht & Hc). unfold invariant, advance.
  destruct (timer i) as [t|] eqn:Htimer; simpl.
  - destruct (ticks_frame (Z.to_nat (ticksUntil t (clock i + Z.max 0 ms)))
                          (captured t) i) as (-> & _ & -> & _ & -> & _).
    repeat split.
    + intros t' Heq. injection Heq as <-. simpl. apply Hp. reflexivity.
    + intros _. apply Ht. congruence.
    + intros _. congruence.
    + exact Hc.
  - repeat split; try assumption; try congruence; try apply Ht.
    rewrite Htimer. apply Ht.
Qed.

Lemma step_invariant (e : Event) (i : Instance) :
  invariant i -> invariant (step e i).
Proof.
  intros Hinv.
  assert (Hh : forall env st, invariant (handle e env st i)).
  { intros env st. destruct Hinv as (Hp & Ht & Hc).
    destruct (handle_frame e env st i) as (_ & H2 & _ & H4 & H5 & _ & _ & H8 & _).
    unfold invariant. rewrite H2, H4, H5, H8. repeat split; try assumption;
      apply Ht. }
  destruct e; simpl;
    try (destruct (rendered i) as [[env st]|];
         [exact (Hh env st) | exact Hinv]).
  - apply render_invariant. exact Hinv.
  - apply advance_invariant. exact Hinv.
  - destruct Hinv as (Hp & Ht & Hc). unfold invariant, runInteractions. simpl.
    destruct (emit_all_frame (interactionQueue i) i)
      as (-> & _ & -> & _ & -> & -> & _).
    repeat split; try assumption; apply Ht.
Qed.

Lemma run_snoc (events : list Event) (e : Event) (i : Instance) :
  run (events ++ [e]) i = step e (run events i).
Proof. unfold run. rewrite fold_left_app. reflexivity. Qed.

Lemma reachable_step (e : Event) (i : Instance) :
  reachable i -> reachable (step e i).
Proof.
  intros [events ->]. exists (events ++ [e]). symmetry. apply run_snoc.
Qed.

Lemma reachable_invariant (i : Instance) : reachable i -> invariant i.
Proof.
  intros [events ->]. induction events as [|e events IH] using rev_ind.
  - apply invariant_initial.
  - rewrite run_snoc. apply step_invariant. exact IH.
Qed.

(** ** A render and its follow-up *)

(** After a render, the [canSync] cell holds the condition of the hook
    values of that render. *)
Lemma render_canSync_condition (env : Env) (i : Instance) :
  invariant i -> canSync (hooks (render env i)) = syncCondition env.
Proof.
  intros (_ & _ & Hc). rewrite render_canSync.
  destruct (depsChanged sameValues (depsCanSync i) _) eqn:Hd; [reflexivity|].
  apply depsChanged_false in Hd. apply Hc. exact Hd.
Qed.

Lemma listData_full (q : JsString.t) (l : option (list Account)) :
  listData q l l = l.
Proof. unfold listData. destruct (JsString.nonEmpty _); reflexivity. Qed.

(** Once the component has rendered twice with hook values whose
    condition is false, the flag is false where the handlers and the
    next render read it, and no interval is live. *)
Lemma settled_off (env : Env) (i : Instance) :
  invariant i -> syncCondition env = false ->
  canSync (hooks (settle env i)) = false
  /\ timer (settle env i) = None
  /\ (exists st, rendered (settle env i) = Some (env, st) /\ canSync st = false)
  /\ invariant (settle env i).
Proof.
  intros Hinv Hoff. unfold settle.
  pose proof (render_invariant env i Hinv) as Hinv1.
  pose proof (render_canSync_condition env i Hinv) as Hc1.
  pose proof (render_invariant env _ Hinv1) as Hinv2.
  split; [|split; [|split]].
  - rewrite render_canSync_condition by exact Hinv1. exact Hoff.
  - destruct Hinv2 as (_ & Ht & _).
    destruct (timer (render env (render env i))) eqn:Htimer; [|reflexivity].
    destruct Ht as [Ht _]. destruct Ht as [fn [tok Hdeps]]; [congruence|].
    destruct (render_deps env (render env i)) as (_ & _ & Hd).
    rewrite Hd, Hc1, Hoff in Hdeps. discriminate.
  - exists (hooks (render env i)). split.
    + apply render_rendered.
    + rewrite Hc1. exact Hoff.
  - exact Hinv2.
Qed.

(** Once the component has rendered twice with hook values whose
    condition is true, an interval of the fixed period is live. *)
Lemma settled_on (env : Env) (i : Instance) :
  invariant i -> syncCondition env = true ->
  exists t, timer (settle env i) = Some t /\ period t = 60000.
Proof.
  intros Hinv Hon. unfold settle.
  pose proof (render_invariant env i Hinv) as Hinv1.
  pose proof (render_canSync_condition env i Hinv) as Hc1.
  destruct (render_invariant env _ Hinv1) as (Hp & Ht & _).
  destruct (timer (render env (render env i))) as [t|] eqn:Htimer.
  - exists t. split; [reflexivity|]. apply Hp. reflexivity.
  - exfalso. destruct Ht as [_ Ht]. apply Ht; [|reflexivity].
    exists (startSync env), (token env).
    destruct (render_deps env (render env i)) as (_ & _ & ->).
    rewrite Hc1, Hon. reflexivity.
Qed.

(** From a component that reads [canSync] as false and has no interval:
    two renders with hook values whose condition is true make exactly
    one [startSync] call and then create the interval. *)
Lemma activation (env : Env) (i : Instance) :
  invariant i -> canSync (hooks i) = false -> timer i = None ->
  syncCondition env = true ->
  log (settle env i)
  = log i ++ [A_startSync (syncCallOf env); A_setInterval REFRESH_INTERVAL]
  /\ timer (settle env i)
     = Some {| period := REFRESH_INTERVAL; due := clock i + REFRESH_INTERVAL;
               captured := syncCallOf env |}
  /\ interactionQueue (settle env i) = interactionQueue i
  /\ clock (settle env i) = clock i
  /\ canSync (hooks (settle env i)) = true
  /\ depsTimer (settle env i) = Some (startSync env, true, token env)
  /\ invariant (settle env i).
Proof.
  intros Hinv Hoff Htimer Hon. unfold settle.
  pose proof (render_invariant env i Hinv) as Hinv1.
  pose proof (render_canSync_condition env i Hinv) as Hc1.
  pose proof (render_invariant env _ Hinv1) as Hinv2.
  assert (Hlog1 : log (render env i) = log i).
  { rewrite render_log, Htimer, Hoff.
    destruct (depsChanged _ _ _); simpl; apply app_nil_r. }
  assert (Htimer1 : timer (render env i) = None).
  { rewrite render_timer, Htimer, Hoff. destruct (depsChanged _ _ _); reflexivity. }
  destruct (render_deps env i) as (_ & _ & Hd1).
  destruct (render_clock_queue env i) as (Hk1 & Hq1).
  destruct (render_clock_queue env (render env i)) as (Hk2 & Hq2).
  assert (Hch : depsChanged sameValues (depsTimer (render env i))
                  (startSync env, canSync (hooks (render env i)), token env)
                = true).
  { rewrite Hd1, Hc1, Hon, Hoff. simpl. apply negb_true_iff.
    unfold sameValues. apply bool_decide_eq_false. congruence. }
  repeat split.
  - rewrite render_log, Hch, Htimer1, Hc1, Hon, Hlog1. reflexivity.
  - rewrite render_timer, Hch, Hc1, Hon, Hk1. reflexivity.
  - congruence.
  - congruence.
  - rewrite render_canSync_condition by exact Hinv1. exact Hon.
  - destruct (render_deps env (render env i)) as (_ & _ & ->).
    rewrite Hc1, Hon. reflexivity.
  - apply Hinv2.
  - apply Hinv2.
  - apply Hinv2.
  - apply Hinv2.
Qed.

(** ** Time *)

Lemma ticksUntil_fresh (t : Timer) (now ms : Z) :
  period t = REFRESH_INTERVAL -> due t = now + REFRESH_INTERVAL -> 0 <= ms ->
  ticksUntil t (now + ms) = ms / REFRESH_INTERVAL.
Proof.
  intros Hp Hd Hms. unfold ticksUntil. rewrite Hp, Hd.
  unfold REFRESH_INTERVAL.
  destruct (Z.leb_spec (now + 60000) (now + ms)).
  - replace (now + ms - (now + 60000)) with (ms - 60000) by lia.
    assert (H1 : ms / 60000 = (ms - 60000) / 60000 + 1).
    { rewrite <- Z.div_add by lia. f_equal. lia. }
    lia.
  - symmetry. apply Z.div_small. lia.
Qed.

Lemma advance_log_queue (ms : Z) (i : Instance) (t : Timer) :
  timer i = Some t ->
  let n := Z.to_nat (ticksUntil t (clock i + Z.max 0 ms)) in
  log (advance ms i) = log i ++ repeat (A_runAfterInteractions (captured t)) n
  /\ interactionQueue (advance ms i)
     = interactionQueue i ++ repeat (captured t) n.
Proof.
  intros Ht. unfold advance. rewrite Ht. simpl.
  rewrite ticks_log, ticks_queue. split; reflexivity.
Qed.

Lemma advance_without_timer (ms : Z) (i : Instance) :
  timer i = None ->
  log (advance ms i) = log i
  /\ interactionQueue (advance ms i) = interactionQueue i
  /\ timer (advance ms i) = None.
Proof.
  intros Ht. unfold advance. rewrite Ht. simpl. rewrite Ht.
  repeat split; reflexivity.
Qed.

Lemma runInteractions_log (i : Instance) :
  log (runInteractions i) = log i ++ map A_startSync (interactionQueue i)
  /\ interactionQueue (runInteractions i) = [].
Proof.
  unfold runInteractions. simpl.
  destruct (emit_all_frame (interactionQueue i) i) as (_ & _ & _ & _ & _ & _ & _ & ->).
  split; reflexivity.
Qed.

Lemma classic_render (e : Event) :
  (exists env, e = Render env) \/ (forall env, e <> Render env).
Proof.
  destruct e; try (right; intros env' H; discriminate H).
  left. eexists. reflexivity.
Qed.

(** Every step but a render leaves [accountsVersion] alone, and every
    step but a render or a search leaves [filteredData] alone. *)
Lemma step_frame (e : Event) (i : Instance) :
  (forall env, e <> Render env) ->
  accountsVersion (hooks (step e i)) = accountsVersion (hooks i)
  /\ depsAccounts (step e i) = depsAccounts i
  /\ ((forall q, e <> HandleSearch q) ->
      filteredData (hooks (step e i)) = filteredData (hooks i)).
Proof.
  intros Hr.
  assert (Hh : forall env st,
             accountsVersion (hooks (handle e env st i)) = accountsVersion (hooks i)
             /\ depsAccounts (handle e env st i) = depsAccounts i
             /\ ((forall q, e <> HandleSearch q) ->
                 filteredData (hooks (handle e env st i)) = filteredData (hooks i))).
  { intros env st.
    destruct (handle_frame e env st i) as (_ & _ & H3 & _ & _ & _ & _ & _ & H9 & H10).
    repeat split; assumption. }
  destruct e; simpl;
    try (destruct (rendered i) as [[env st]|];
         [exact (Hh env st) | repeat split; reflexivity]).
  - exfalso. eapply Hr. reflexivity.
  - unfold advance. destruct (timer i) as [t|]; simpl.
    + destruct (ticks_frame (Z.to_nat (ticksUntil t (clock i + Z.max 0 ms)))
                            (captured t) i) as (-> & _ & _ & -> & _).
      repeat split; reflexivity.
    + repeat split; reflexivity.
  - unfold runInteractions. simpl.
    destruct (emit_all_frame (interactionQueue i) i) as (-> & _ & _ & -> & _).
    repeat split; reflexivity.
Qed.

(** A render that reads [canSync] as false, with no interval live, calls
    nothing and creates no interval. *)
Lemma render_off (env : Env) (i : Instance) :
  canSync (hooks i) = false -> timer i = None ->
  log (render env i) = log i
  /\ timer (render env i) = None
  /\ interactionQueue (render env i) = interactionQueue i.
Proof.
  intros Hoff Ht. rewrite render_log, render_timer, Ht, Hoff.
  destruct (render_clock_queue env i) as (_ & ->).
  destruct (depsChanged _ _ _); simpl; rewrite app_nil_r; repeat split.
Qed.

Lemma settle_off (env : Env) (i : Instance) :
  invariant i -> canSync (hooks i) = false -> timer i = None ->
  syncCondition env = false ->
  log (settle env i) = log i
  /\ timer (settle env i) = None
  /\ interactionQueue (settle env i) = interactionQueue i.
Proof.
  intros Hinv Hoff Ht Hcond. unfold settle.
  destruct (render_off env i Hoff Ht) as (Hl1 & Ht1 & Hq1).
  pose proof (render_canSync_condition env i Hinv) as Hc1.
  rewrite Hcond in Hc1.
  destruct (render_off env (render env i) Hc1 Ht1) as (Hl2 & Ht2 & Hq2).
  repeat split; congruence.
Qed.

Lemma reachable_initial : reachable initialInstance.
Proof. exists []. reflexivity. Qed.

Lemma reachable_settle (env : Env) (i : Instance) :
  reachable i -> reachable (settle env i).
Proof.
  intros H. unfold settle.
  apply (reachable_step (Render env)), (reachable_step (Render env)), H.
Qed.

(** ** Sync attempts *)

(** What the guard achieves.  Once the component has rendered and
    re-rendered with connectivity absent or the credentials incomplete,
    its [canSync] flag is false: a mount or a later activation of the
    sync effect under such hook values calls nothing and creates no
    interval, no interval is live so that the passing of time queues and
    calls nothing, and a pull to refresh starts no sync.  (A task that a
    tick has deferred before is not covered: see
    [deferred_task_outlives_interval].) *)
Theorem no_sync_once_settled_without_condition (i0 : Instance) (env : Env) :
  reachable i0 -> syncCondition env = false ->
  let i := settle env i0 in
  (log (settle env initialInstance) = []
   /\ timer (settle env initialInstance) = None)
  /\ timer i = None
  /\ (forall env', syncCondition env' = false ->
      log (settle env' i) = log i
      /\ timer (settle env' i) = None
      /\ interactionQueue (settle env' i) = interactionQueue i)
  /\ (forall ms,
      log (advance ms i) = log i
      /\ interactionQueue (advance ms i) = interactionQueue i)
  /\ (forall settles,
      log (step (OnRefresh settles) i) = log i
      /\ interactionQueue (step (OnRefresh settles) i) = interactionQueue i).
Proof.
  intros Hreach Hcond i.
  apply reachable_invariant in Hreach.
  destruct (settled_off env i0 Hreach Hcond) as (Hc & Ht & (st & Hr & Hst) & Hinv).
  change (settle env i0) with i in Hc, Ht, Hr, Hinv. clearbody i.
  split; [|split; [exact Ht | split; [|split]]].
  - destruct (settle_off env initialInstance invariant_initial eq_refl eq_refl Hcond)
      as (Hl & Htm & _).
    split; [exact Hl | exact Htm].
  - intros env' Hcond'. apply settle_off; assumption.
  - intros ms. destruct (advance_without_timer ms i Ht) as (Hl & Hq & _).
    split; assumption.
  - intros settles. unfold step. rewrite Hr. unfold handle, onRefresh.
    rewrite Hst. simpl. split; reflexivity.
Qed.

Lemma no_sync_once_settled_without_condition_witness :
  let i := settle Sample.offline (settle Sample.online initialInstance) in
  timer i = None
  /\ log (settle Sample.signedOut i) = log i
  /\ log (advance 180000 i) = log i
  /\ log (step (OnRefresh (Resolves None)) i) = log i.
Proof.
  assert (Hr : reachable (settle Sample.online initialInstance))
    by (apply reachable_settle, reachable_initial).
  destruct (no_sync_once_settled_without_condition
              (settle Sample.online initialInstance) Sample.offline
              Hr eq_refl)
    as (_ & Ht & Hact & Hadv & Href).
  split; [exact Ht|]. split; [|split].
  - exact (proj1 (Hact Sample.signedOut eq_refl)).
  - exact (proj1 (Hadv 180000)).
  - exact (proj1 (Href (Resolves None))).
Defined.

(** C1.  A sync attempt is started while the credentials are
    incomplete.  The user signs out while the interval is live: in the
    render that delivers hook values without user and token the condition
    is false, but [canSync], which guards the sync effect, is still read as
    true, and the token has changed; so the sync effect runs, calls
    [startSync] with the incomplete credentials and creates a new
    interval.  The guard misses the trigger by one render. *)
Lemma sync_started_with_incomplete_credentials :
  let i := settle Sample.online initialInstance in
  reachable i
  /\ syncCondition Sample.signedOut = false
  /\ log (render Sample.signedOut i)
     = log i ++ [A_clearInterval;
                 A_startSync {| sc_startSync := 7%nat; sc_userInfo := None;
                                sc_serverUrl := serverUrl Sample.online;
                                sc_token := None |};
                 A_setInterval 60000]
  /\ syncAttempts (log (render Sample.signedOut i)) <> syncAttempts (log i)
  /\ timer (render Sample.signedOut i) <> None.
Proof.
  split; [apply reachable_settle, reachable_initial|].
  split; [reflexivity|]. split; [reflexivity|]. split.
  - vm_compute. discriminate.
  - vm_compute. discriminate.
Qed.

(** C7. When the condition turns from false to true, the render and its
    follow-up call [startSync] once, with the hook values of that render,
    and only then create the interval: the call comes before any tick,
    the first of which is due a full interval later.  A component that
    is mounted with the condition true does the same. *)
Theorem sync_starts_when_condition_turns_true
    (i0 : Instance) (before env : Env) :
  reachable i0 -> syncCondition before = false -> syncCondition env = true ->
  let off := settle before i0 in
  let on := settle env off in
  log on = log off ++ [A_startSync (syncCallOf env);
                       A_setInterval REFRESH_INTERVAL]
  /\ (exists t, timer on = Some t /\ due t = clock on + REFRESH_INTERVAL)
  /\ interactionQueue on = interactionQueue off
  /\ (forall ms, ms < REFRESH_INTERVAL ->
      log (advance ms on) = log on
      /\ interactionQueue (advance ms on) = interactionQueue on)
  /\ log (settle env initialInstance)
     = [A_startSync (syncCallOf env); A_setInterval REFRESH_INTERVAL].
Proof.
  intros Hreach Hoff Hon off on.
  assert (Hmount : log (settle env initialInstance)
                   = [A_startSync (syncCallOf env);
                      A_setInterval REFRESH_INTERVAL])
    by exact (proj1 (activation env initialInstance invariant_initial
                                eq_refl eq_refl Hon)).
  apply reachable_invariant in Hreach.
  destruct (settled_off before i0 Hreach Hoff) as (Hc & Ht & _ & Hinv).
  destruct (activation env off Hinv Hc Ht Hon)
    as (Hlog & Htimer & Hq & Hk & _).
  change (settle env off) with on in Hlog, Htimer, Hq, Hk.
  clearbody on. clearbody off.
  split; [exact Hlog|]. split; [|split; [exact Hq|split; [|exact Hmount]]].
  - eexists. split; [exact Htimer|]. cbn [due]. rewrite Hk. reflexivity.
  - intros ms Hms.
    destruct (advance_log_queue ms on _ Htimer) as (Hl & Hqa).
    match type of Hl with
    | context [ticksUntil ?t ?now] =>
        assert (H0 : ticksUntil t now = 0)
    end.
    { unfold ticksUntil. cbn [due]. rewrite Hk.
      destruct (Z.leb_spec (clock off + REFRESH_INTERVAL)
                           (clock off + Z.max 0 ms)) as [Hle|Hlt];
        [unfold REFRESH_INTERVAL in *; lia | reflexivity]. }
    rewrite H0 in Hl, Hqa. cbn [Z.to_nat repeat] in Hl, Hqa.
    rewrite app_nil_r in Hl, Hqa. split; assumption.
Qed.

Lemma sync_starts_when_condition_turns_true_witness :
  log (settle Sample.online (settle Sample.offline initialInstance))
  = log (settle Sample.offline initialInstance)
    ++ [A_startSync (syncCallOf Sample.online); A_setInterval REFRESH_INTERVAL].
Proof.
  exact (proj1 (sync_starts_when_condition_turns_true
                  initialInstance Sample.offline Sample.online
                  reachable_initial eq_refl eq_refl)).
Defined.

(** C6. The interval of the sync effect has the fixed period of 60000
    milliseconds.  From the moment the condition has turned true, each
    full period that passes without a render makes the interval defer one
    [startSync] call with the values it has captured, which the
    interaction manager then issues.  The interval is cleared by the
    render in which [startSync] or [token] is another value, and by the
    follow-up of the render in which the condition is false. *)
Theorem periodic_sync_on_fixed_interval
    (i0 : Instance) (before env : Env) :
  reachable i0 -> syncCondition before = false -> syncCondition env = true ->
  let on := settle env (settle before i0) in
  REFRESH_INTERVAL = 60000
  /\ (forall t, timer i0 = Some t -> period t = 60000)
  /\ (forall env1, syncCondition env1 = true ->
      exists t, timer (settle env1 i0) = Some t /\ period t = 60000)
  /\ (exists t, timer on = Some t /\ period t = 60000
                /\ captured t = syncCallOf env)
  /\ (forall ms, 0 <= ms ->
      let n := Z.to_nat (ms / 60000) in
      log (advance ms on)
      = log on ++ repeat (A_runAfterInteractions (syncCallOf env)) n
      /\ interactionQueue (advance ms on)
         = interactionQueue on ++ repeat (syncCallOf env) n
      /\ log (runInteractions (advance ms on))
         = log (advance ms on)
           ++ map A_startSync (interactionQueue on ++ repeat (syncCallOf env) n))
  /\ (forall env',
      startSync env' <> startSync env \/ token env' <> token env ->
      exists rest, log (render env' on) = log on ++ A_clearInterval :: rest)
  /\ (forall env', syncCondition env' = false ->
      timer (settle env' on) = None
      /\ exists mid, log (settle env' on) = log on ++ mid ++ [A_clearInterval]).
Proof.
  intros Hreach Hoff Hon on.
  apply reachable_invariant in Hreach.
  destruct (settled_off before i0 Hreach Hoff) as (Hc & Ht & _ & Hinv).
  destruct (activation env _ Hinv Hc Ht Hon)
    as (_ & Htimer & _ & Hk & Hcs & Hdeps & Hinv').
  change (settle env (settle before i0)) with on
    in Htimer, Hk, Hcs, Hdeps, Hinv'.
  clearbody on.
  split; [reflexivity|]. split; [apply Hreach|].
  split; [intros env1 Hon1; apply settled_on; assumption|].
  split; [eexists; split; [exact Htimer | split; reflexivity]|].
  split; [|split].
  - intros ms Hms n.
    destruct (advance_log_queue ms on _ Htimer) as (Hl & Hq).
    rewrite Z.max_r in Hl, Hq by exact Hms.
    match type of Htimer with
    | _ = Some ?t =>
        assert (Hfresh : ticksUntil t (clock on + ms) = ms / REFRESH_INTERVAL)
          by (apply ticksUntil_fresh;
              [reflexivity | cbn [due]; rewrite Hk; reflexivity | exact Hms])
    end.
    rewrite Hfresh in Hl, Hq. cbn [captured] in Hl, Hq.
    change (Z.to_nat (ms / REFRESH_INTERVAL)) with n in Hl, Hq.
    split; [exact Hl|]. split; [exact Hq|].
    destruct (runInteractions_log (advance ms on)) as (-> & _).
    rewrite Hq. reflexivity.
  - intros env' Hne. rewrite render_log, Hdeps, Hcs, Htimer.
    assert (Hch : depsChanged sameValues (Some (startSync env, true, token env))
                    (startSync env', true, token env') = true).
    { simpl. apply negb_true_iff. unfold sameValues.
      apply bool_decide_eq_false. intros Heq. injection Heq as H1 H2.
      destruct Hne as [Hne|Hne]; apply Hne; congruence. }
    rewrite Hch. eexists. reflexivity.
  - intros env' Hcond. unfold settle.
    pose proof (render_invariant env' on Hinv') as Hinv1.
    pose proof (render_canSync_condition env' on Hinv') as Hc1.
    rewrite Hcond in Hc1.
    destruct (render_deps env' on) as (_ & _ & Hd1). rewrite Hcs in Hd1.
    assert (Ht1 : exists t1, timer (render env' on) = Some t1).
    { rewrite render_timer, Hcs, Htimer.
      destruct (depsChanged _ _ _); eexists; reflexivity. }
    destruct Ht1 as [t1 Ht1].
    assert (Hch : depsChanged sameValues (depsTimer (render env' on))
                    (startSync env', canSync (hooks (render env' on)), token env')
                  = true).
    { rewrite Hd1, Hc1. simpl. apply negb_true_iff. unfold sameValues.
      apply bool_decide_eq_false. congruence. }
    split.
    + rewrite render_timer, Hch, Hc1. reflexivity.
    + rewrite render_log, Hch, Ht1, Hc1.
      rewrite (render_log env' on).
      eexists. rewrite <- app_assoc. reflexivity.
Qed.

Lemma periodic_sync_on_fixed_interval_witness :
  let on := settle Sample.online (settle Sample.offline initialInstance) in
  log (runInteractions (advance 125000 on))
  = log on
    ++ [A_runAfterInteractions (syncCallOf Sample.online);
        A_runAfterInteractions (syncCallOf Sample.online);
        A_startSync (syncCallOf Sample.online);
        A_startSync (syncCallOf Sample.online)]
  /\ timer (settle Sample.offline on) = None.
Proof.
  destruct (periodic_sync_on_fixed_interval
              initialInstance Sample.offline Sample.online
              reachable_initial eq_refl eq_refl)
    as (_ & _ & _ & _ & Hticks & _ & Hdown).
  split.
  - destruct (Hticks 125000 ltac:(lia)) as (_ & _ & Hrun).
    rewrite Hrun. reflexivity.
  - exact (proj1 (Hdown Sample.offline eq_refl)).
Defined.

(** ** The list and its version *)

Lemma run_cons (e : Event) (events : list Event) (i : Instance) :
  run (e :: events) i = run events (step e i).
Proof. reflexivity. Qed.

Lemma view_settle (env : Env) (i : Instance) :
  view (settle env i) = Some (listProps env (hooks (render env i))).
Proof. reflexivity. Qed.

Lemma view_render (env : Env) (i : Instance) :
  view (render env i) = Some (listProps env (hooks i)).
Proof. reflexivity. Qed.

(** C5. A render in which the store hook delivers another accounts array
    than the render before (or the first array) adds one to
    [accountsVersion] and stores the array in [filteredData]; the
    follow-up render hands both to the list view.  [onComplete] of a
    countdown circle changes nothing of the component.  No step but such
    a render changes [accountsVersion], and no step but such a render or
    a search changes [filteredData]. *)
Theorem version_follows_accounts_only (env : Env) (i : Instance) :
  (depsChanged sameArray (depsAccounts i) (accounts env) = true ->
   accountsVersion (hooks (render env i)) = accountsVersion (hooks i) + 1
   /\ filteredData (hooks (render env i)) = contents (accounts env)
   /\ extraData <$> view (settle env i) = Some (accountsVersion (hooks i) + 1)
   /\ data <$> view (settle env i) = Some (contents (accounts env)))
  /\ (forall timeRemaining,
      step (OnComplete timeRemaining) i = i
      /\ fst (onComplete timeRemaining i) = i)
  /\ (forall e,
      (forall env', e = Render env' ->
         depsChanged sameArray (depsAccounts i) (accounts env') = false) ->
      accountsVersion (hooks (step e i)) = accountsVersion (hooks i)
      /\ ((forall q, e <> HandleSearch q) ->
          filteredData (hooks (step e i)) = filteredData (hooks i))).
Proof.
  split; [|split].
  - intros Hch.
    pose proof (render_accountsVersion env i) as Hv.
    pose proof (render_filteredData env i) as Hf.
    rewrite Hch in Hv, Hf.
    split; [exact Hv|]. split; [exact Hf|].
    rewrite view_settle. unfold listProps.
    cbn [fmap option_fmap option_map extraData data].
    rewrite Hv, Hf, listData_full. split; reflexivity.
  - intros timeRemaining. split; [|reflexivity].
    simpl. destruct (rendered i) as [[env' st]|]; reflexivity.
  - intros e Hr.
    destruct (classic_render e) as [[env' ->]|Hnr].
    + specialize (Hr env' eq_refl). unfold step.
      rewrite render_accountsVersion, render_filteredData, Hr.
      split; reflexivity.
    + destruct (step_frame e i Hnr) as (Hv & _ & Hf).
      split; assumption.
Qed.

Lemma version_follows_accounts_only_witness :
  let i := settle Sample.online initialInstance in
  accountsVersion (hooks (render Sample.onlineTwo i)) = 1 + 1
  /\ filteredData (hooks (render Sample.onlineTwo i))
     = Some [Sample.github; Sample.gitlab]
  /\ step (OnComplete 30) i = i
  /\ accountsVersion (hooks (step (Render Sample.online) i)) = 1.
Proof.
  destruct (version_follows_accounts_only
              Sample.onlineTwo (settle Sample.online initialInstance))
    as (Hch & Hdone & Honly).
  destruct (Hch eq_refl) as (Hv & Hf & _).
  split; [exact Hv|]. split; [exact Hf|]. split.
  - exact (proj1 (Hdone 30)).
  - refine (proj1 (Honly (Render Sample.online) _)).
    intros env' Heq. injection Heq as <-. reflexivity.
Defined.

Lemma filteredData_stable (env : Env) (events : list Event) (i : Instance) :
  Forall (fun e => (forall env', e <> Render env')
                   /\ (forall q, e <> HandleSearch q)) events ->
  filteredData (hooks (run events i)) = filteredData (hooks i).
Proof.
  intros Hall. revert i. induction Hall as [|e events [Hr Hs] _ IH]; intros i.
  - reflexivity.
  - rewrite run_cons, IH.
    destruct (step_frame e i Hr) as (_ & _ & Hf). apply Hf. exact Hs.
Qed.

(** C9. A render in which the store hook delivers another accounts
    array stores that array in [filteredData], whatever the search query
    is; the follow-up render shows the whole array, also under a query
    that selects a part of it, and so does every render with these hook
    values that comes after steps other than a search or a render. *)
Theorem accounts_change_resets_filter (env : Env) (i : Instance) :
  depsChanged sameArray (depsAccounts i) (accounts env) = true ->
  filteredData (hooks (render env i)) = contents (accounts env)
  /\ searchQuery (hooks (render env i)) = searchQuery (hooks i)
  /\ data <$> view (settle env i) = Some (contents (accounts env))
  /\ (forall events,
      Forall (fun e => (forall env', e <> Render env')
                       /\ (forall q, e <> HandleSearch q)) events ->
      data <$> view (render env (run events (settle env i)))
      = Some (contents (accounts env))).
Proof.
  intros Hch.
  pose proof (render_filteredData env i) as Hf. rewrite Hch in Hf.
  split; [exact Hf|]. split; [apply render_searchQuery|]. split.
  - rewrite view_settle. unfold listProps.
    cbn [fmap option_fmap option_map data].
    rewrite Hf, listData_full. reflexivity.
  - intros events Hall. rewrite view_render. unfold listProps.
    cbn [fmap option_fmap option_map data].
    rewrite (filteredData_stable env events _ Hall).
    unfold settle. rewrite render_filteredData.
    destruct (render_deps env i) as (_ & -> & _).
    cbn [depsChanged]. rewrite sameArray_refl. cbn [negb].
    rewrite Hf, listData_full. reflexivity.
Qed.

Lemma accounts_change_resets_filter_witness :
  let i := step (Render Sample.online)
             (step (HandleSearch (JsString.lit "cas"))
                (settle Sample.online initialInstance)) in
  data <$> view i = Some (Some [Sample.casdoor])
  /\ data <$> view (settle Sample.onlineTwo i)
     = Some (Some [Sample.github; Sample.gitlab])
  /\ searchQuery (hooks (settle Sample.onlineTwo i)) = JsString.lit "cas".
Proof.
  split; [reflexivity|]. split; [|reflexivity].
  refine (proj1 (proj2 (proj2 (accounts_change_resets_filter
                                 Sample.onlineTwo _ _)))).
  reflexivity.
Defined.

(** ** The model at work *)

Example toLowerCase_GitHub :
  JsString.toLowerCase (JsString.lit "GitHub: Alice") = JsString.lit "github: alice".
Proof. vm_compute. reflexivity. Qed.

Example trim_padded :
  JsString.trim (JsString.lit "  two words  ") = JsString.lit "two words".
Proof. vm_compute. reflexivity. Qed.

Example includes_examples :
  JsString.includes (JsString.lit "casdoor") (JsString.lit "door") = true
  /\ JsString.includes (JsString.lit "casdoor") (JsString.lit "doors") = false
  /\ JsString.includes (JsString.lit "casdoor") [] = true.
Proof. vm_compute. repeat split; reflexivity. Qed.

(** The first render reads [canSync] as false; its follow-up starts the
    sync and the interval. *)
Example mount_online :
  log (render Sample.online initialInstance) = []
  /\ log (settle Sample.online initialInstance)
     = [A_startSync (syncCallOf Sample.online); A_setInterval 60000]
  /\ accountsVersion (hooks (settle Sample.online initialInstance)) = 1.
Proof. vm_compute. repeat split; reflexivity. Qed.

(** Connectivity lost, the token unchanged: the render calls nothing and
    its follow-up clears the interval. *)
Example connectivity_lost :
  let i := settle Sample.online initialInstance in
  log (render Sample.offline i) = log i
  /\ log (settle Sample.offline i) = log i ++ [A_clearInterval].
Proof. vm_compute. split; reflexivity. Qed.

(** A task deferred by a tick is still issued after the interval has
    been cleared. *)
Example deferred_task_outlives_interval :
  let i := advance 60000 (settle Sample.online initialInstance) in
  let j := settle Sample.offline i in
  timer j = None
  /\ log (runInteractions j)
     = log j ++ [A_startSync (syncCallOf Sample.online)].
Proof. vm_compute. split; reflexivity. Qed.

(** Another user, the token unchanged: [userInfo] is no dependency of
    the sync effect, whose interval stays with the values it captured. *)
Example interval_kept_when_only_userInfo_changes :
  let i := settle Sample.online initialInstance in
  let other := {| isConnected := isConnected Sample.online;
                  userInfo := Some 2%nat;
                  serverUrl := serverUrl Sample.online;
                  token := token Sample.online;
                  startSync := startSync Sample.online;
                  accounts := accounts Sample.online |} in
  log (settle other i) = log i
  /\ timer (settle other i) = timer i.
Proof. vm_compute. split; reflexivity. Qed.

(** * More properties of the screen *)

(** ** Searching *)

Lemma filter_sublist_of_weaker {A : Type} (f g : A -> bool) (l : list A) :
  (forall x, f x = true -> g x = true) ->
  sublist (List.filter f l) (List.filter g l).
Proof.
  intros Hfg. induction l as [|x l IH]; simpl.
  - constructor.
  - destruct (f x) eqn:Hf.
    + rewrite (Hfg x Hf). apply sublist_skip. exact IH.
    + destruct (g x); [apply sublist_cons|]; exact IH.
Qed.

Lemma filter_sublist {A : Type} (f : A -> bool) (l : list A) :
  sublist (List.filter f l) l.
Proof.
  induction l as [|x l IH]; simpl.
  - constructor.
  - destruct (f x); [apply sublist_skip | apply sublist_cons]; exact IH.
Qed.

Lemma includes_part (s pre q post : JsString.t) :
  JsString.includes s (pre ++ q ++ post) = true -> JsString.includes s q = true.
Proof.
  rewrite !includes_spec. intros [a [b ->]].
  exists (a ++ pre), (post ++ b). rewrite <- !app_assoc. reflexivity.
Qed.

Lemma whitespaceOnly_part (pre q post : JsString.t) :
  whitespaceOnly (pre ++ q ++ post) -> whitespaceOnly q.
Proof.
  intros H. apply whitespaceOnly_app in H as [_ H].
  apply whitespaceOnly_app in H as [H _]. exact H.
Qed.

(** X1. For a query of code units below 256, typing more never brings
    an account back: the result for the query is a subsequence of the
    result for any part of it, and so of the account list. *)
Theorem search_longer_query_narrows
    (accounts : list Account) (pre q post : JsString.t) :
  latin1 (pre ++ q ++ post) ->
  exists shorter longer,
    handleSearch_data (Some accounts) q = Some shorter
    /\ handleSearch_data (Some accounts) (pre ++ q ++ post) = Some longer
    /\ sublist longer shorter
    /\ sublist shorter accounts.
Proof.
  intros Hl.
  assert (Hq : latin1 q).
  { apply latin1_app in Hl as [_ Hl]. apply latin1_app in Hl as [Hl _].
    exact Hl. }
  unfold handleSearch_data.
  destruct (JsString.nonEmpty (JsString.trim (pre ++ q ++ post))) eqn:Hn;
    destruct (JsString.nonEmpty (JsString.trim q)) eqn:Hs.
  - eexists _, _. split; [reflexivity|]. split; [reflexivity|]. split.
    + apply filter_sublist_of_weaker. intros a Ha. unfold matchesQuery in *.
      rewrite (toLowerCase_latin1 _ Hl), !map_app in Ha.
      apply includes_part in Ha. rewrite (toLowerCase_latin1 _ Hq). exact Ha.
    + apply filter_sublist.
  - eexists _, _. split; [reflexivity|]. split; [reflexivity|]. split.
    + apply filter_sublist.
    + reflexivity.
  - apply nonEmpty_trim_false, whitespaceOnly_part, nonEmpty_trim_false in Hn.
    congruence.
  - eexists _, _. repeat split; reflexivity.
Qed.

Lemma search_longer_query_narrows_witness :
  exists shorter longer,
    handleSearch_data (Some Sample.three) (JsString.lit "git") = Some shorter
    /\ handleSearch_data (Some Sample.three) (JsString.lit "gitl") = Some longer
    /\ sublist longer shorter
    /\ sublist shorter Sample.three.
Proof.
  apply (search_longer_query_narrows Sample.three [] (JsString.lit "git")
           (JsString.lit "l")).
  unfold latin1. repeat constructor.
Defined.

Lemma sameLetter_isWhiteSpace (c d : N) :
  (c < 256)%N -> (d < 256)%N ->
  sameLetter c d -> JsString.isWhiteSpace c = JsString.isWhiteSpace d.
Proof.
  assert (H : forallb (fun c => forallb (fun d =>
                implb (sameLetterb c d)
                      (Bool.eqb (JsString.isWhiteSpace c)
                                (JsString.isWhiteSpace d)))
              allChars) allChars = true) by (vm_compute; reflexivity).
  intros Hc Hd.
  rewrite forallb_forall in H. specialize (H c (allChars_complete c Hc)).
  rewrite forallb_forall in H. specialize (H d (allChars_complete d Hd)).
  intros Hcd. apply sameLetterb_spec in Hcd. rewrite Hcd in H. simpl in H.
  apply Bool.eqb_prop in H. exact H.
Qed.

Lemma sameLetters_whitespaceOnly (q1 q2 : JsString.t) :
  latin1 q1 -> latin1 q2 ->
  Forall2 sameLetter q1 q2 -> (whitespaceOnly q1 <-> whitespaceOnly q2).
Proof.
  unfold whitespaceOnly, latin1. intros H1 H2 H. revert H1 H2.
  induction H as [|c d q1 q2 Hcd _ IH]; intros H1 H2.
  - split; intros _; constructor.
  - inversion H1; subst. inversion H2; subst.
    pose proof (sameLetter_isWhiteSpace c d ltac:(assumption) ltac:(assumption) Hcd) as Hw.
    specialize (IH ltac:(assumption) ltac:(assumption)).
    split; intros Hall; inversion Hall; subst; constructor;
      try (apply IH; assumption); congruence.
Qed.

(** X2. For queries of code units below 256 the case of the query does
    not matter: two queries that differ only in the case of their letters
    give the same result. *)
Theorem search_ignores_case_of_query
    (accounts : option (list Account)) (q1 q2 : JsString.t) :
  latin1 q1 -> Forall2 sameLetter q1 q2 ->
  handleSearch_data accounts q1 = handleSearch_data accounts q2.
Proof.
  intros H1 H. pose proof (sameLetters_latin1 _ _ H H1) as H2.
  unfold handleSearch_data.
  assert (Hne : JsString.nonEmpty (JsString.trim q1)
                = JsString.nonEmpty (JsString.trim q2)).
  { pose proof (sameLetters_whitespaceOnly q1 q2 H1 H2 H) as Hw.
    rewrite <- !nonEmpty_trim_false in Hw.
    destruct (JsString.nonEmpty (JsString.trim q1)),
             (JsString.nonEmpty (JsString.trim q2));
      try reflexivity; destruct Hw as [Ha Hb];
      [discriminate (Hb eq_refl) | discriminate (Ha eq_refl)]. }
  rewrite Hne. clear Hne.
  destruct (JsString.nonEmpty (JsString.trim q2)); [|reflexivity].
  destruct accounts as [l|]; [|reflexivity]. f_equal.
  apply (sameLetters_toLowerCase _ _ H1 H2) in H.
  apply filter_ext. intros a. unfold matchesQuery. rewrite H. reflexivity.
Qed.

Lemma search_ignores_case_of_query_witness :
  handleSearch_data (Some Sample.three) (JsString.lit "GIT")
  = handleSearch_data (Some Sample.three) (JsString.lit "git").
Proof.
  apply search_ignores_case_of_query.
  - unfold latin1. repeat constructor.
  - change (Forall2 sameLetter [71; 73; 84]%N [103; 105; 116]%N).
    repeat (apply List.Forall2_cons;
            [right; left; split; [lia | reflexivity] |]).
    apply List.Forall2_nil.
Defined.

(** X3. The query is matched as typed, white space included: when the
    lower-cased query has a code unit, a leading space for instance, that
    occurs in no lower-cased account name, nothing is selected, also where
    the trimmed query would match. *)
Theorem search_matches_query_as_typed
    (accounts : list Account) (query : JsString.t) (c : N) :
  hasNonWhitespace query ->
  In c (JsString.toLowerCase query) ->
  (forall a, In a accounts ->
     ~ In c (JsString.toLowerCase (accountName a))) ->
  handleSearch_data (Some accounts) query = Some [].
Proof.
  intros Hq Hc Hnone. apply nonEmpty_trim_true in Hq.
  unfold handleSearch_data. rewrite Hq. f_equal.
  induction accounts as [|a l IH]; [reflexivity|]. simpl.
  destruct (matchesQuery query a) eqn:Hm.
  - exfalso. apply (Hnone a); [left; reflexivity|].
    apply matchesQuery_occurs in Hm as [pre [post Hm]].
    rewrite Hm. apply in_or_app. right. apply in_or_app. left. exact Hc.
  - apply IH. intros b Hb. apply Hnone. right. exact Hb.
Qed.

Lemma search_matches_query_as_typed_witness :
  handleSearch_data (Some [Sample.casdoor]) (JsString.lit " cas") = Some []
  /\ handleSearch_data (Some [Sample.casdoor]) (JsString.lit "cas")
     = Some [Sample.casdoor].
Proof.
  split; [|reflexivity].
  apply (search_matches_query_as_typed [Sample.casdoor] (JsString.lit " cas")
           32%N).
  - apply List.Exists_cons_tl, List.Exists_cons_hd. reflexivity.
  - left. reflexivity.
  - intros a [<-|[]]. vm_compute. intuition discriminate.
Defined.

(** X4. After a search and the render that follows it, the list shows
    the result of that search over the accounts of the render that created
    the handler, whatever an earlier search had left. *)
Theorem list_shows_last_search
    (env : Env) (st : State) (i : Instance) (earlier query : JsString.t) :
  rendered i = Some (env, st) ->
  data <$> view (render env (step (HandleSearch query) i))
  = Some (handleSearch_data (contents (accounts env)) query)
  /\ hooks (step (HandleSearch query) (step (HandleSearch earlier) i))
     = hooks (step (HandleSearch query) i).
Proof.
  intros Hr. split.
  - rewrite view_render. unfold step. rewrite Hr. unfold handle, handleSearch.
    unfold listProps. cbn [fmap option_fmap option_map data hooks withHooks
                          searchQuery filteredData setFilteredData setSearchQuery].
    unfold listData, handleSearch_data.
    destruct (JsString.nonEmpty (JsString.trim query)); reflexivity.
  - unfold step. rewrite Hr. unfold handle.
    replace (rendered (handleSearch env earlier i)) with (Some (env, st))
      by (symmetry; exact Hr).
    reflexivity.
Qed.

Lemma list_shows_last_search_witness :
  let i := settle Sample.online initialInstance in
  data <$> view (render Sample.online (step (HandleSearch (JsString.lit "lab")) i))
  = Some (Some [Sample.gitlab]).
Proof.
  exact (proj1 (list_shows_last_search Sample.online _
                  (settle Sample.online initialInstance)
                  [] (JsString.lit "lab") eq_refl)).
Defined.

(** ** Reasoning by steps *)

Lemma step_cases (P : Instance -> Prop) (e : Event) (i : Instance) :
  (forall env, e = Render env -> P (render env i)) ->
  (forall ms, e = Advance ms -> P (advance ms i)) ->
  (e = InteractionsDone -> P (runInteractions i)) ->
  (forall b, e = SwipeableAttached b -> P (withSwipeableRef b i)) ->
  (forall env st, rendered i = Some (env, st) -> touchesInterval e = false ->
     P (handle e env st i)) ->
  P i ->
  P (step e i).
Proof.
  intros Hrender Hadvance Hrun Hattach Hhandle Hi.
  destruct e; simpl;
    try (destruct (rendered i) as [[env st]|] eqn:Hr;
         [exact (Hhandle env st eq_refl eq_refl) | exact Hi]).
  - apply Hrender. reflexivity.
  - apply Hadvance. reflexivity.
  - apply Hrun. reflexivity.
  - apply Hattach. reflexivity.
Qed.

Lemma reachable_induction (P : Instance -> Prop) :
  P initialInstance ->
  (forall e i, reachable i -> P i -> P (step e i)) ->
  forall i, reachable i -> P i.
Proof.
  intros Hinit Hstep i [events ->].
  induction events as [|e events IH] using rev_ind.
  - exact Hinit.
  - rewrite run_snoc. apply Hstep; [eexists; reflexivity | exact IH].
Qed.

Ltac handler_cases st :=
  simpl;
  try (unfold onRefresh, complete, onRefresh_resume;
       destruct (canSync st); simpl;
       [match goal with
        | s : Settlement |- _ =>
            destruct s as [r|]; simpl; [destruct (truthyString r); simpl|]
        end |]);
  unfold handleAddAccount,
    handleEditAccount, closeSwipeableMenu, onAccountEdit, onAccountDelete,
    closeEditAccountModal, handleScanPress, handleCloseScanner,
    handleScanError, togglePlusButton, closeOptions, openEnterAccountModal,
    openImportAccountModal, closeEnterAccountModal, handleItemPress,
    onImportError, onImportScan, handleSearch;
  repeat match goal with
         | |- context [match ?x with _ => _ end] => destruct x eqn:?; simpl
         end.

(** What a handler adds to the log: no timer call; a [startSync] call
    only in [onRefresh]; a store write only where an account is added,
    renamed or deleted. *)
Lemma handle_log (e : Event) (env : Env) (st : State) (i : Instance) :
  exists added,
    log (handle e env st i) = log i ++ added
    /\ List.filter isSetInterval added = []
    /\ List.filter isClearInterval added = []
    /\ (startsSync e = false -> syncAttempts added = [])
    /\ (writesStore e = false -> storeWrites added = []).
Proof.
  destruct e; handler_cases st; rewrite <- ?app_assoc;
    eexists;
    (split; [first [reflexivity | symmetry; apply app_nil_r] |]);
    repeat split; try reflexivity; intros H; discriminate H.
Qed.

Lemma filter_repeat_false {A : Type} (f : A -> bool) (x : A) (n : nat) :
  f x = false -> List.filter f (repeat x n) = [].
Proof.
  intros H. induction n as [|n IH]; simpl; [reflexivity|]. rewrite H. exact IH.
Qed.

Lemma filter_map_false {A B : Type} (f : B -> bool) (g : A -> B) (l : list A) :
  (forall x, f (g x) = false) -> List.filter f (map g l) = [].
Proof.
  intros H. induction l as [|x l IH]; simpl; [reflexivity|]. rewrite H. exact IH.
Qed.

Lemma intervalsCreated_app (a b : list Action) :
  intervalsCreated (a ++ b) = (intervalsCreated a + intervalsCreated b)%nat.
Proof. unfold intervalsCreated. rewrite List.filter_app, List.length_app. reflexivity. Qed.

Lemma intervalsCleared_app (a b : list Action) :
  intervalsCleared (a ++ b) = (intervalsCleared a + intervalsCleared b)%nat.
Proof. unfold intervalsCleared. rewrite List.filter_app, List.length_app. reflexivity. Qed.

(** ** The interval *)

Lemma interval_balance_step (e : Event) (i : Instance) :
  intervalsCreated (log i) = (intervalsCleared (log i) + liveIntervals i)%nat ->
  intervalsCreated (log (step e i))
  = (intervalsCleared (log (step e i)) + liveIntervals (step e i))%nat.
Proof.
  intros Hi. apply step_cases; try exact Hi.
  - intros env _. unfold liveIntervals in *.
    rewrite render_log, render_timer, intervalsCreated_app, intervalsCleared_app.
    destruct (depsChanged sameValues (depsTimer i) _);
      destruct (timer i); destruct (canSync (hooks i)); simpl;
      unfold intervalsCreated, intervalsCleared in *; simpl; lia.
  - intros ms _. unfold liveIntervals in *. unfold advance.
    destruct (timer i) as [t|] eqn:Ht; simpl.
    + rewrite ticks_log, intervalsCreated_app, intervalsCleared_app.
      unfold intervalsCreated at 2. unfold intervalsCleared at 2.
      rewrite !filter_repeat_false by reflexivity. simpl. lia.
    + rewrite Ht. exact Hi.
  - intros _. unfold liveIntervals in *.
    destruct (runInteractions_log i) as (-> & _).
    unfold runInteractions. simpl.
    destruct (emit_all_frame (interactionQueue i) i) as (_ & _ & _ & _ & _ & -> & _).
    rewrite intervalsCreated_app, intervalsCleared_app.
    unfold intervalsCreated at 2. unfold intervalsCleared at 2.
    rewrite !filter_map_false by reflexivity. simpl. lia.
  - intros b _. exact Hi.
  - intros env st _ _. unfold liveIntervals in *.
    destruct (handle_frame e env st i) as (_ & _ & _ & _ & -> & _).
    destruct (handle_log e env st i) as (added & -> & Hs & Hc & _).
    rewrite intervalsCreated_app, intervalsCleared_app.
    unfold intervalsCreated at 2. unfold intervalsCleared at 2.
    rewrite Hs, Hc. simpl. lia.
Qed.

(** X5. The timer calls balance: at every moment the intervals created
    are the intervals cleared and the one that is live, if any.  No
    interval is left running behind a newer one. *)
Theorem intervals_created_cleared_balance (i : Instance) :
  reachable i ->
  intervalsCreated (log i) = (intervalsCleared (log i) + liveIntervals i)%nat
  /\ (liveIntervals i <= 1)%nat.
Proof.
  intros Hr. split.
  - revert i Hr. apply reachable_induction.
    + reflexivity.
    + intros e i _ Hi. apply interval_balance_step. exact Hi.
  - unfold liveIntervals. destruct (timer i); lia.
Qed.

Lemma intervals_created_cleared_balance_witness :
  let i := settle Sample.signedOut (settle Sample.online initialInstance) in
  intervalsCreated (log i) = (intervalsCleared (log i) + liveIntervals i)%nat
  /\ (liveIntervals i <= 1)%nat.
Proof.
  apply intervals_created_cleared_balance.
  apply reachable_settle, reachable_settle, reachable_initial.
Defined.

Example intervals_after_sign_out :
  let i := settle Sample.signedOut (settle Sample.online initialInstance) in
  intervalsCreated (log i) = 2%nat /\ intervalsCleared (log i) = 2%nat
  /\ liveIntervals i = 0%nat.
Proof. vm_compute. repeat split; reflexivity. Qed.

Lemma syncAttempts_app (a b : list Action) :
  syncAttempts (a ++ b) = syncAttempts a ++ syncAttempts b.
Proof. unfold syncAttempts. apply omap_app. Qed.

Lemma syncAttempts_deferrals (c : SyncCall) (n : nat) :
  syncAttempts (repeat (A_runAfterInteractions c) n) = [].
Proof. induction n as [|n IH]; [reflexivity | exact IH]. Qed.

Lemma storeWrites_app (a b : list Action) :
  storeWrites (a ++ b) = storeWrites a ++ storeWrites b.
Proof. unfold storeWrites. apply List.filter_app. Qed.

(** X6. The interval keeps the values it captured.  While the condition
    stays true and neither [startSync] nor [token] is another value, new
    hook values (another user, another server) neither clear the interval
    nor start a sync: the periodic calls go on with the user and the
    server of the render that created the interval. *)
Theorem interval_keeps_captured_values
    (i0 : Instance) (before env env' : Env) :
  reachable i0 -> syncCondition before = false -> syncCondition env = true ->
  syncCondition env' = true ->
  startSync env' = startSync env -> token env' = token env ->
  let on := settle env (settle before i0) in
  log (settle env' on) = log on
  /\ timer (settle env' on) = timer on
  /\ (exists t, timer (settle env' on) = Some t /\ captured t = syncCallOf env).
Proof.
  intros Hreach Hoff Hon Hon' Hfn Htok on.
  apply reachable_invariant in Hreach.
  destruct (settled_off before i0 Hreach Hoff) as (Hc & Ht & _ & Hinv).
  destruct (activation env _ Hinv Hc Ht Hon)
    as (_ & Htimer & _ & _ & Hcs & Hdeps & Hinv').
  change (settle env (settle before i0)) with on
    in Htimer, Hcs, Hdeps, Hinv'.
  clearbody on.
  assert (Hsame : forall j,
             canSync (hooks j) = true ->
             depsTimer j = Some (startSync env, true, token env) ->
             log (render env' j) = log j /\ timer (render env' j) = timer j).
  { intros j Hcj Hdj.
    assert (Hun : depsChanged sameValues (depsTimer j)
                    (startSync env', canSync (hooks j), token env') = false).
    { apply depsChanged_false. rewrite Hdj, Hcj, Hfn, Htok. reflexivity. }
    rewrite render_log, render_timer, Hun, app_nil_r. split; reflexivity. }
  destruct (Hsame on Hcs Hdeps) as (Hl1 & Ht1).
  pose proof (render_canSync_condition env' on Hinv') as Hc1.
  rewrite Hon' in Hc1.
  assert (Hd1 : depsTimer (render env' on) = Some (startSync env, true, token env)).
  { destruct (render_deps env' on) as (_ & _ & ->).
    rewrite Hcs, Hfn, Htok. reflexivity. }
  destruct (Hsame (render env' on) Hc1 Hd1) as (Hl2 & Ht2).
  unfold settle.
  assert (Htm : timer (render env' (render env' on)) = timer on) by congruence.
  split; [congruence|]. split; [exact Htm|].
  eexists. split; [rewrite Htm; exact Htimer | reflexivity].
Qed.

Lemma interval_keeps_captured_values_witness :
  let on := settle Sample.online (settle Sample.offline initialInstance) in
  let other := {| isConnected := Some true; userInfo := Some 2%nat;
                  serverUrl := Some (JsString.lit "https://other.example.org");
                  token := token Sample.online;
                  startSync := startSync Sample.online;
                  accounts := accounts Sample.online |} in
  log (settle other on) = log on
  /\ timer (settle other on) = timer on
  /\ (exists t, timer (settle other on) = Some t
                /\ captured t = syncCallOf Sample.online).
Proof.
  intros on other.
  exact (interval_keeps_captured_values
           initialInstance Sample.offline Sample.online other
           reachable_initial eq_refl eq_refl eq_refl eq_refl eq_refl).
Defined.

(** X7. Nothing but the sync effect of a render, a deferred task of the
    interval and a pull to refresh starts a sync: adding, renaming or
    deleting an account, a search and every other handler make no
    [startSync] call, and neither does a tick itself. *)
Theorem only_sync_triggers_start_sync (e : Event) (i : Instance) :
  startsSync e = false ->
  syncAttempts (log (step e i)) = syncAttempts (log i).
Proof.
  intros He.
  apply (step_cases (fun j => syncAttempts (log j) = syncAttempts (log i)));
    try reflexivity.
  - intros env ->. discriminate He.
  - intros ms _. unfold advance. destruct (timer i) as [t|]; simpl.
    + rewrite ticks_log, syncAttempts_app, syncAttempts_deferrals.
      apply app_nil_r.
    + reflexivity.
  - intros ->. discriminate He.
  - intros env st _ _.
    destruct (handle_log e env st i) as (added & -> & _ & _ & Hs & _).
    rewrite syncAttempts_app, (Hs He). apply app_nil_r.
Qed.

Lemma only_sync_triggers_start_sync_witness :
  let i := settle Sample.online initialInstance in
  syncAttempts (log (step (OnAccountDelete Sample.github) i))
  = syncAttempts (log i).
Proof.
  exact (only_sync_triggers_start_sync (OnAccountDelete Sample.github) _ eq_refl).
Defined.

Lemma step_storeWrites (e : Event) (i : Instance) :
  writesStore e = false ->
  storeWrites (log (step e i)) = storeWrites (log i).
Proof.
  intros He.
  apply (step_cases (fun j => storeWrites (log j) = storeWrites (log i)));
    try reflexivity.
  - intros env _. rewrite render_log, storeWrites_app.
    destruct (depsChanged sameValues (depsTimer i) _);
      destruct (timer i); destruct (canSync (hooks i)); apply app_nil_r.
  - intros ms _. unfold advance. destruct (timer i) as [t|]; simpl.
    + rewrite ticks_log, storeWrites_app. unfold storeWrites at 2.
      rewrite filter_repeat_false by reflexivity. apply app_nil_r.
    + reflexivity.
  - intros _. destruct (runInteractions_log i) as (-> & _).
    rewrite storeWrites_app. unfold storeWrites at 2.
    rewrite filter_map_false by reflexivity. apply app_nil_r.
  - intros env st _ _.
    destruct (handle_log e env st i) as (added & -> & _ & _ & _ & Hw).
    rewrite storeWrites_app, (Hw He). apply app_nil_r.
Qed.

(** X8. The screen writes to the account store only where an account is
    added, renamed or deleted: a render, the passing of time, a deferred
    sync, a pull to refresh, a search and the handlers of the menus make
    no write call, alone or in any sequence. *)
Theorem only_account_handlers_write_store (events : list Event) (i : Instance) :
  Forall (fun e => writesStore e = false) events ->
  storeWrites (log (run events i)) = storeWrites (log i).
Proof.
  intros Hall. revert i. induction Hall as [|e events He _ IH]; intros i.
  - reflexivity.
  - rewrite run_cons, IH. apply step_storeWrites. exact He.
Qed.

Lemma only_account_handlers_write_store_witness :
  let i := settle Sample.online initialInstance in
  storeWrites (log (run [OnRefresh (Resolves None); Render Sample.signedOut;
                         HandleSearch (JsString.lit "git"); Advance 60000;
                         InteractionsDone] i))
  = storeWrites (log i).
Proof.
  apply only_account_handlers_write_store.
  repeat constructor.
Defined.

(** X9. Only a render creates or clears the interval, and only the
    passing of time moves its next tick: a pull to refresh, a deferred
    sync and every other handler leave the interval as it is, so that a
    manual refresh does not postpone the next periodic sync. *)
Theorem handlers_leave_interval (e : Event) (i : Instance) :
  touchesInterval e = false ->
  timer (step e i) = timer i /\ clock (step e i) = clock i.
Proof.
  intros He.
  apply (step_cases (fun j => timer j = timer i /\ clock j = clock i));
    try (split; reflexivity).
  - intros env ->. discriminate He.
  - intros ms ->. discriminate He.
  - intros _. unfold runInteractions. simpl.
    destruct (emit_all_frame (interactionQueue i) i)
      as (_ & _ & _ & _ & _ & -> & -> & _).
    split; reflexivity.
  - intros env st _ _.
    destruct (handle_frame e env st i) as (_ & _ & _ & _ & -> & -> & _).
    split; reflexivity.
Qed.

Lemma handlers_leave_interval_witness :
  let i := advance 20000 (settle Sample.online initialInstance) in
  timer (step (OnRefresh (Resolves None)) i) = timer i
  /\ clock (step (OnRefresh (Resolves None)) i) = clock i.
Proof.
  exact (handlers_leave_interval (OnRefresh (Resolves None)) _ eq_refl).
Defined.

(** X10. When the awaited [startSync] call rejects, nothing catches the
    exception: it leaves [onRefresh] after the [startSync] call, with no
    notification and with the refreshing indicator still set. *)
Theorem rejected_sync_leaves_refresh_indicator
    (env : Env) (st : State) (i : Instance) (reason : JsString.t) :
  canSync st = true ->
  exists j,
    complete (Rejects reason) (onRefresh env st i) = Thrown reason j
    /\ refreshing (hooks j) = true
    /\ log j = log i ++ [A_startSync (syncCallOf env)]
    /\ (rendered i = Some (env, st) ->
        refreshing (hooks (step (OnRefresh (Rejects reason)) i)) = true).
Proof.
  intros Hc. unfold onRefresh. rewrite Hc. simpl.
  eexists. split; [reflexivity|]. split; [reflexivity|].
  split; [reflexivity|].
  intros Hr. unfold step. rewrite Hr. unfold handle, onRefresh.
  rewrite Hc. reflexivity.
Qed.

Lemma rejected_sync_leaves_refresh_indicator_witness :
  exists j,
    complete (Rejects (JsString.lit "offline"))
             (onRefresh Sample.online (setCanSync true initialState)
                        initialInstance)
    = Thrown (JsString.lit "offline") j
    /\ refreshing (hooks j) = true.
Proof.
  destruct (rejected_sync_leaves_refresh_indicator
              Sample.online (setCanSync true initialState) initialInstance
              (JsString.lit "offline") eq_refl)
    as (j & Hj & Hr & _).
  exists j. split; assumption.
Defined.

(** ** The flag and the last render *)

Lemma renderedInvariant_step (e : Event) (i : Instance) :
  renderedInvariant i -> renderedInvariant (step e i).
Proof.
  intros Hi. apply step_cases; try exact Hi.
  - intros env _ env' st' Hr. rewrite render_rendered in Hr.
    injection Hr as <- <-. destruct (render_deps env i) as (-> & _ & ->).
    split; reflexivity.
  - intros ms _ env st. unfold advance.
    destruct (timer i) as [t|]; simpl;
      [destruct (ticks_frame (Z.to_nat (ticksUntil t (clock i + Z.max 0 ms)))
                             (captured t) i) as (_ & -> & -> & _ & -> & _)|];
      apply Hi.
  - intros _ env st. unfold runInteractions. simpl.
    destruct (emit_all_frame (interactionQueue i) i)
      as (_ & -> & -> & _ & -> & _).
    apply Hi.
  - intros b _. exact Hi.
  - intros env st _ _ env' st'.
    destruct (handle_frame e env st i) as (-> & -> & _ & -> & _).
    apply Hi.
Qed.

Lemma reachable_renderedInvariant (i : Instance) :
  reachable i -> renderedInvariant i.
Proof.
  revert i. apply reachable_induction.
  - intros env st H. discriminate H.
  - intros e i _ Hi. apply renderedInvariant_step. exact Hi.
Qed.

(** X11. At every moment the [canSync] cell holds the condition of the
    hook values of the last render, and an interval is live exactly when
    that render has read the cell as true: the flag is behind the hook
    values by one render and never more. *)
Theorem canSync_follows_last_render (i : Instance) (env : Env) (st : State) :
  reachable i -> rendered i = Some (env, st) ->
  canSync (hooks i) = syncCondition env
  /\ (timer i <> None <-> canSync st = true).
Proof.
  intros Hreach Hr.
  destruct (reachable_renderedInvariant i Hreach env st Hr) as (Hd1 & Hd3).
  destruct (reachable_invariant i Hreach) as (_ & Ht & Hc).
  split.
  - apply Hc. exact Hd1.
  - rewrite Ht, Hd3. split.
    + intros (fn & tok & H). congruence.
    + intros ->. eexists _, _. reflexivity.
Qed.

Lemma canSync_follows_last_render_witness :
  let i0 := settle Sample.online initialInstance in
  let i := render Sample.signedOut i0 in
  canSync (hooks i) = syncCondition Sample.signedOut
  /\ (timer i <> None <-> canSync (hooks i0) = true).
Proof.
  intros i0 i.
  apply (canSync_follows_last_render i Sample.signedOut (hooks i0)).
  - apply (reachable_step (Render Sample.signedOut)).
    apply reachable_settle, reachable_initial.
  - reflexivity.
Defined.

(** ** The floating button and its menu *)

Lemma render_button_cells (env : Env) (i : Instance) :
  isPlusButton (hooks (render env i)) = isPlusButton (hooks i)
  /\ showOptions (hooks (render env i)) = showOptions (hooks i).
Proof. render_cases i; split; reflexivity. Qed.

Lemma buttonInvariant_step (e : Event) (i : Instance) :
  buttonInvariant i -> buttonInvariant (step e i).
Proof.
  intros Hi. apply step_cases; try exact Hi.
  - intros env _. destruct Hi as (Hh & _). unfold buttonInvariant.
    destruct (render_button_cells env i) as (-> & ->).
    split; [exact Hh|]. intros env' st' Hr. rewrite render_rendered in Hr.
    injection Hr as <- <-. exact Hh.
  - intros ms _. unfold buttonInvariant, advance.
    destruct (timer i) as [t|]; simpl;
      [destruct (ticks_frame (Z.to_nat (ticksUntil t (clock i + Z.max 0 ms)))
                             (captured t) i) as (-> & -> & _)|];
      exact Hi.
  - intros _. unfold buttonInvariant, runInteractions. simpl.
    destruct (emit_all_frame (interactionQueue i) i) as (-> & -> & _).
    exact Hi.
  - intros b _. exact Hi.
  - intros env st Hr _. destruct Hi as (Hh & Hst).
    pose proof (Hst env st Hr) as Hst0. unfold buttonInvariant.
    destruct (handle_frame e env st i) as (-> & _).
    split; [|exact Hst].
    destruct e; handler_cases st;
      try exact Hh; try reflexivity; try (rewrite Hst0; reflexivity).
Qed.

(** X12. At every moment the menu of options is shown exactly when the
    floating button shows the close icon, in the cells and in what the
    last render has drawn. *)
Theorem options_shown_iff_close_icon (i : Instance) :
  reachable i ->
  (showOptions (hooks i) = true <-> fabIcon (hooks i) = "close"%string)
  /\ (forall env st, rendered i = Some (env, st) ->
      (showOptions st = true <-> fabIcon st = "close"%string)).
Proof.
  intros Hreach.
  assert (Hinv : buttonInvariant i).
  { revert i Hreach. apply reachable_induction.
    - split; [reflexivity|]. intros env st H. discriminate H.
    - intros e i _ Hi. apply buttonInvariant_step. exact Hi. }
  destruct Hinv as (Hh & Hst).
  assert (Hiff : forall s, showOptions s = negb (isPlusButton s) ->
                 (showOptions s = true <-> fabIcon s = "close"%string)).
  { intros s ->. unfold fabIcon. destruct (isPlusButton s); simpl.
    - split; discriminate.
    - split; reflexivity. }
  split.
  - apply Hiff, Hh.
  - intros env st Hr. apply Hiff, (Hst env st Hr).
Qed.

Lemma options_shown_iff_close_icon_witness :
  let i := run [Render Sample.online; TogglePlusButton; Render Sample.online;
                OpenEnterAccountModal] initialInstance in
  (showOptions (hooks i) = true <-> fabIcon (hooks i) = "close"%string).
Proof.
  refine (proj1 (options_shown_iff_close_icon _ _)).
  eexists. reflexivity.
Defined.

(** X13. The button toggles what its render has read: pressed twice
    within one render it toggles once, pressed again after the render that
    follows it restores the button and the menu. *)
Theorem toggle_twice (env : Env) (st : State) (i : Instance) :
  rendered i = Some (env, st) ->
  hooks (step TogglePlusButton (step TogglePlusButton i))
  = hooks (step TogglePlusButton i)
  /\ (forall env',
      let j := step TogglePlusButton
                 (step (Render env') (step TogglePlusButton i)) in
      isPlusButton (hooks j) = isPlusButton st
      /\ showOptions (hooks j) = showOptions st).
Proof.
  intros Hr. split.
  - unfold step. rewrite Hr. unfold handle.
    replace (rendered (togglePlusButton st i)) with (Some (env, st))
      by (symmetry; exact Hr).
    reflexivity.
  - intros env' j.
    assert (Hk : isPlusButton (hooks (step TogglePlusButton i))
                 = negb (isPlusButton st)
                 /\ showOptions (hooks (step TogglePlusButton i))
                    = negb (showOptions st)).
    { unfold step. rewrite Hr. split; reflexivity. }
    destruct Hk as (Hp & Ho).
    assert (Hj : j = togglePlusButton (hooks (step TogglePlusButton i))
                       (render env' (step TogglePlusButton i)))
      by reflexivity.
    rewrite Hj. unfold togglePlusButton.
    cbn [hooks withHooks isPlusButton showOptions setShowOptions setIsPlusButton].
    rewrite Hp, Ho, !negb_involutive. split; reflexivity.
Qed.

Lemma toggle_twice_witness :
  let i := render Sample.online initialInstance in
  hooks (step TogglePlusButton (step TogglePlusButton i))
  = hooks (step TogglePlusButton i).
Proof.
  exact (proj1 (toggle_twice Sample.online initialState
                  (render Sample.online initialInstance) eq_refl)).
Defined.

(** ** The edit form *)

Lemma render_edit_cells (env : Env) (i : Instance) :
  editingAccount (hooks (render env i)) = editingAccount (hooks i)
  /\ placeholder (hooks (render env i)) = placeholder (hooks i)
  /\ showEditAccountModal (hooks (render env i)) = showEditAccountModal (hooks i).
Proof. render_cases i; repeat split; reflexivity. Qed.

Lemma editInvariant_step (e : Event) (i : Instance) :
  editInvariant i -> editInvariant (step e i).
Proof.
  intros Hi. apply step_cases; try exact Hi.
  - intros env _. unfold editInvariant.
    destruct (render_edit_cells env i) as (-> & -> & ->). exact Hi.
  - intros ms _. unfold editInvariant, advance.
    destruct (timer i) as [t|]; simpl;
      [destruct (ticks_frame (Z.to_nat (ticksUntil t (clock i + Z.max 0 ms)))
                             (captured t) i) as (-> & _)|];
      exact Hi.
  - intros _. unfold editInvariant, runInteractions. simpl.
    destruct (emit_all_frame (interactionQueue i) i) as (-> & _).
    exact Hi.
  - intros b _. exact Hi.
  - intros env st _ _. unfold editInvariant in *.
    destruct (editingAccount (hooks i)) as [a0|] eqn:Hed;
      destruct e; handler_cases st; simpl in *;
      rewrite ?Hed in *; intuition congruence.
Qed.

(** X14. Whenever the edit form is shown, there is an account being
    edited and the placeholder of the form is the name of that account;
    when no account is being edited the form is hidden and the placeholder
    empty. *)
Theorem edit_form_has_its_account (i : Instance) :
  reachable i ->
  (showEditAccountModal (hooks i) = true ->
   exists a, editingAccount (hooks i) = Some a
             /\ placeholder (hooks i) = accountName a)
  /\ (editingAccount (hooks i) = None ->
      showEditAccountModal (hooks i) = false /\ placeholder (hooks i) = []).
Proof.
  intros Hreach.
  assert (Hinv : editInvariant i).
  { revert i Hreach. apply reachable_induction.
    - split; reflexivity.
    - intros e i _ Hi. apply editInvariant_step. exact Hi. }
  unfold editInvariant in Hinv.
  destruct (editingAccount (hooks i)) as [a|].
  - split; [|discriminate]. intros _. exists a. split; [reflexivity | exact Hinv].
  - destruct Hinv as (Hp & Hm). split.
    + intros H. congruence.
    + intros _. split; assumption.
Qed.

Lemma edit_form_has_its_account_witness :
  let i := run [Render Sample.online; HandleEditAccount Sample.gitlab]
               initialInstance in
  exists a, editingAccount (hooks i) = Some a
            /\ placeholder (hooks i) = accountName a.
Proof.
  intros i.
  refine (proj1 (edit_form_has_its_account i _) eq_refl).
  eexists. reflexivity.
Defined.

(** X15. The rename, from the swipe to the store: after [handleEditAccount]
    and the render that follows it, [onAccountEdit] makes exactly the two
    store calls of the rename, for the account that was swiped, and closes
    the form; once the next render has read the cleared cells, a further
    [onAccountEdit] writes nothing. *)
Theorem rename_flow
    (env : Env) (st : State) (i : Instance) (account : Account)
    (newAccountName again : JsString.t) (env1 env2 : Env) :
  rendered i = Some (env, st) ->
  let k := step (Render env1) (step (HandleEditAccount account) i) in
  let j := step (OnAccountEdit newAccountName) k in
  log j = log k ++ [A_setAccount (renamed account newAccountName);
                    A_updateAccount]
  /\ storeWrites (log k) = storeWrites (log i)
  /\ editingAccount (hooks j) = None
  /\ showEditAccountModal (hooks j) = false
  /\ placeholder (hooks j) = []
  /\ log (step (OnAccountEdit again) (step (Render env2) j))
     = log (step (Render env2) j).
Proof.
  intros Hr k j.
  assert (Hk : rendered k = Some (env1, hooks (step (HandleEditAccount account) i)))
    by reflexivity.
  assert (He : editingAccount (hooks (step (HandleEditAccount account) i))
               = Some account).
  { unfold step. rewrite Hr. reflexivity. }
  assert (Hj : j = onAccountEdit (hooks (step (HandleEditAccount account) i))
                     newAccountName k) by reflexivity.
  assert (Hcells : editingAccount (hooks j) = None
                   /\ showEditAccountModal (hooks j) = false
                   /\ placeholder (hooks j) = []).
  { rewrite Hj. unfold onAccountEdit. rewrite He. repeat split; reflexivity. }
  destruct Hcells as (H1 & H2 & H3).
  split; [|split; [|split; [exact H1 | split; [exact H2 | split; [exact H3|]]]]].
  - rewrite Hj. unfold onAccountEdit. rewrite He. simpl.
    rewrite <- app_assoc. reflexivity.
  - unfold k. rewrite !step_storeWrites by reflexivity. reflexivity.
  - assert (Hr2 : rendered (step (Render env2) j) = Some (env2, hooks j))
      by reflexivity.
    unfold step at 1. rewrite Hr2. unfold handle, onAccountEdit.
    rewrite H1. reflexivity.
Qed.

Lemma rename_flow_witness :
  let i := settle Sample.online initialInstance in
  let k := step (Render Sample.online) (step (HandleEditAccount Sample.gitlab) i) in
  log (step (OnAccountEdit (JsString.lit "work")) k)
  = log k ++ [A_setAccount (renamed Sample.gitlab (JsString.lit "work"));
              A_updateAccount].
Proof.
  exact (proj1 (rename_flow Sample.online _
                  (settle Sample.online initialInstance) Sample.gitlab
                  (JsString.lit "work") [] Sample.online Sample.online
                  eq_refl)).
Defined.

(** ** The icon of a row *)

(** X16. For issuers of code units below 256, the address of the icon
    depends on the issuer up to the case of its letters and on nothing
    else; an account without issuer gets the address of the issuer called
    "undefined". *)
Theorem avatarUri_by_issuer_ignoring_case (a b : Account) :
  (forall s, issuer a = Some s -> latin1 s) ->
  (forall s, issuer b = Some s -> latin1 s) ->
  avatarUri a = avatarUri b
  <-> match issuer a, issuer b with
      | Some s, Some t => Forall2 sameLetter s t
      | Some s, None | None, Some s =>
          Forall2 sameLetter s (JsString.lit "undefined")
      | None, None => True
      end.
Proof.
  intros Ha Hb.
  assert (Hkey : avatarUri a = avatarUri b <-> issuerKey a = issuerKey b).
  { unfold avatarUri. split.
    - intros H. apply app_inv_head, app_inv_tail in H. exact H.
    - intros ->. reflexivity. }
  rewrite Hkey. unfold issuerKey.
  assert (Hu : JsString.toLowerCase (JsString.lit "undefined")
               = JsString.lit "undefined") by reflexivity.
  assert (Hlu : latin1 (JsString.lit "undefined"))
    by (unfold latin1; repeat constructor).
  destruct (issuer a) as [s|], (issuer b) as [t|].
  - rewrite (sameLetters_toLowerCase s t (Ha s eq_refl) (Hb t eq_refl)).
    reflexivity.
  - rewrite (sameLetters_toLowerCase s _ (Ha s eq_refl) Hlu), Hu. reflexivity.
  - rewrite (sameLetters_toLowerCase t _ (Hb t eq_refl) Hlu), Hu.
    split; intros H; symmetry; exact H.
  - split; [intros _; exact I | reflexivity].
Qed.

Lemma avatarUri_by_issuer_ignoring_case_witness :
  avatarUri Sample.github = avatarUri Sample.gitlab
  <-> Forall2 sameLetter (JsString.lit "GitHub") (JsString.lit "GitLab").
Proof.
  apply (avatarUri_by_issuer_ignoring_case Sample.github Sample.gitlab).
  - intros s Hs. injection Hs as <-. unfold latin1. repeat constructor.
  - intros s Hs. injection Hs as <-. unfold latin1. repeat constructor.
Defined.

Example avatarUri_examples :
  avatarUri Sample.github
  = JsString.lit "https://cdn.casbin.org/img/social_github.png"
  /\ avatarUri Sample.casdoor
     = JsString.lit "https://cdn.casbin.org/img/social_undefined.png".
Proof. vm_compute. split; reflexivity. Qed.

(** ** The version and the deferred tasks *)

Lemma accountsVersion_step (e : Event) (i : Instance) :
  accountsVersion (hooks i) <= accountsVersion (hooks (step e i)).
Proof.
  destruct (classic_render e) as [[env ->]|Hnr].
  - unfold step. rewrite render_accountsVersion.
    destruct (depsChanged sameArray (depsAccounts i) (accounts env)); lia.
  - destruct (step_frame e i Hnr) as (-> & _). lia.
Qed.

(** X17. The version never goes back: along every sequence of events
    it stays or grows, and after a render that delivers another accounts
    array it is for ever greater than before, so that the list view is
    never handed an earlier version again. *)
Theorem accountsVersion_never_decreases
    (events : list Event) (env : Env) (i : Instance) :
  accountsVersion (hooks i) <= accountsVersion (hooks (run events i))
  /\ (depsChanged sameArray (depsAccounts i) (accounts env) = true ->
      accountsVersion (hooks i)
      < accountsVersion (hooks (run events (render env i)))).
Proof.
  assert (Hmono : forall j, accountsVersion (hooks j)
                            <= accountsVersion (hooks (run events j))).
  { induction events as [|e events IH]; intros j.
    - simpl. lia.
    - rewrite run_cons. pose proof (accountsVersion_step e j).
      pose proof (IH (step e j)). lia. }
  split; [apply Hmono|].
  intros Hch. pose proof (Hmono (render env i)) as H.
  rewrite render_accountsVersion, Hch in H. lia.
Qed.

Lemma accountsVersion_never_decreases_witness :
  let i := settle Sample.online initialInstance in
  accountsVersion (hooks i)
  < accountsVersion (hooks (run [HandleSearch (JsString.lit "git");
                                 Render Sample.onlineTwo; OnComplete 30]
                                (render Sample.onlineTwo i))).
Proof.
  intros i.
  exact (proj2 (accountsVersion_never_decreases _ Sample.onlineTwo i) eq_refl).
Defined.

(** X18. A deferred sync call is never cancelled.  No render (so no
    [clearInterval]) and no handler removes a task that a tick has handed
    to the interaction manager: every step but the run of the interaction
    manager keeps the tasks that wait and adds to their end, and that run
    issues each of them, oldest first, with the values its interval had
    captured. *)
Theorem deferred_sync_never_cancelled (e : Event) (i : Instance) :
  (e <> InteractionsDone ->
   exists more, interactionQueue (step e i) = interactionQueue i ++ more)
  /\ log (runInteractions i) = log i ++ map A_startSync (interactionQueue i)
  /\ interactionQueue (runInteractions i) = [].
Proof.
  split; [|apply runInteractions_log].
  intros He.
  apply (step_cases (fun j => exists more,
                       interactionQueue j = interactionQueue i ++ more)).
  - intros env _. exists []. rewrite app_nil_r. apply render_clock_queue.
  - intros ms _. unfold advance. destruct (timer i) as [t|]; simpl.
    + rewrite ticks_queue. eexists. reflexivity.
    + exists []. rewrite app_nil_r. reflexivity.
  - intros ->. contradiction.
  - intros b _. exists []. rewrite app_nil_r. reflexivity.
  - intros env st _ _. exists []. rewrite app_nil_r.
    apply (handle_frame e env st i).
  - exists []. rewrite app_nil_r. reflexivity.
Qed.

Lemma deferred_sync_never_cancelled_witness :
  let i := advance 60000 (settle Sample.online initialInstance) in
  exists more,
    interactionQueue (step (Render Sample.signedOut) i)
    = interactionQueue i ++ more.
Proof.
  intros i.
  refine (proj1 (deferred_sync_never_cancelled (Render Sample.signedOut) i) _).
  discriminate.
Defined.
